(** * The document catalog of apex_document_repo

    A shallow embedding of the two pieces of logic of the repository:

    - [FileIcon] (src/components/react/FileIcon.tsx): the choice of an icon
      component from the extension of a file name;
    - [getAllDocs] (the catalog builder): the scan of [./public/docs], one
      record per YAML sidecar, sorted by [meta.date], most recent first.

    JavaScript strings are modelled as [string] (sequences of bytes, UTF-8):
    every character the code looks at ([.], and the ASCII letters of the
    extensions) is a single byte below 128, and neither [toLowerCase] nor the
    [/i] flag of a regular expression maps a character outside ASCII to one of
    the letters that occur in the extensions compared here. *)

From Stdlib Require Import ZArith String Ascii DecimalString.
From stdpp Require Import base option list sorting strings.

Set Warnings "-register-all".
Local Open Scope Z_scope.

(** ** Strings *)

Module Str.

(** [String.prototype.toLowerCase], on the ASCII letters. *)
Definition lower_ascii (c : ascii) : ascii :=
  let n := N_of_ascii c in
  if ((65 <=? n) && (n <=? 90))%N then ascii_of_N (n + 32) else c.

Fixpoint toLowerCase (s : string) : string :=
  match s with
  | EmptyString => EmptyString
  | String c s' => String (lower_ascii c) (toLowerCase s')
  end.

(** [s.endsWith(suffix)]: [suffix] is the tail of [s] at some position; the
    comparison is exact (case-sensitive). *)
Fixpoint endsWith (s suffix : string) : bool :=
  if String.eqb s suffix then true
  else match s with
       | EmptyString => false
       | String _ s' => endsWith s' suffix
       end.

(** [s.split(sep)] for a one-character separator: the pieces between the
    separators, in order; the result is never empty (the empty string gives
    one empty piece). *)
Fixpoint split (sep : ascii) (s : string) : list string :=
  match s with
  | EmptyString => [EmptyString]
  | String c s' =>
      if Ascii.eqb c sep then EmptyString :: split sep s'
      else match split sep s' with
           | piece :: pieces => String c piece :: pieces
           | [] => [String c EmptyString]
           end
  end.

(** Does the character [c] occur in [s]? *)
Fixpoint contains (c : ascii) (s : string) : bool :=
  match s with
  | EmptyString => false
  | String d s' => Ascii.eqb d c || contains c s'
  end.

(** The part of [s] after its last [c], when [c] occurs in [s]. *)
Fixpoint afterLast (c : ascii) (s : string) : option string :=
  match s with
  | EmptyString => None
  | String d s' =>
      match afterLast c s' with
      | Some rest => Some rest
      | None => if Ascii.eqb d c then Some s' else None
      end
  end.

End Str.

(** ** The file-icon lookup (FileIcon.tsx) *)

Module Icon.

(** The six components imported from react-icons/fa. *)
Inductive Component :=
| FaFilePdf | FaFileWord | FaFileExcel | FaFilePowerpoint | FaFileAlt
| FaFileArchive.

(** [filename?: string | null]. *)
Inductive FilenameProp :=
| Undefined
| Null
| Name (s : string).

(** [size?: number | string]. *)
Inductive SizeProp :=
| SizeNumber (n : Z)
| SizeString (s : string).

Record Props := {
  filename : FilenameProp;
  className : option string;
  size : option SizeProp
}.

(** The element a call returns: [<Component className=... size=... />]. *)
Record Element := {
  component : Component;
  el_className : string;
  el_size : SizeProp
}.

(** [x || empty] for a string-or-undefined [x], where [empty] is the empty
    string, itself falsy. *)
Definition orEmpty (x : option string) : string :=
  match x with
  | Some (String c s) => String c s
  | Some EmptyString | None => EmptyString
  end.

(** [(filename || empty).toString().split(".").pop()?.toLowerCase() || empty],
    with [empty] the empty string. *)
Definition ext (filename : FilenameProp) : string :=
  let name := match filename with
              | Name s => orEmpty (Some s)
              | Undefined | Null => EmptyString
              end in
  orEmpty (Str.toLowerCase <$> last (Str.split "." name)).

(** The [switch (ext)] of the component. *)
Definition switch (ext : string) : Component :=
  if String.eqb ext "pdf" then FaFilePdf
  else if String.eqb ext "doc" || String.eqb ext "docx" then FaFileWord
  else if String.eqb ext "xls" || String.eqb ext "xlsx" then FaFileExcel
  else if String.eqb ext "ppt" || String.eqb ext "pptx" then FaFilePowerpoint
  else if String.eqb ext "zip" || String.eqb ext "tgz"
          || String.eqb ext "tar" || String.eqb ext "gz" then FaFileArchive
  else FaFileAlt.

Definition FileIcon (p : Props) : Element :=
  {| component := switch (ext (filename p));
     el_className := default EmptyString (className p);
     el_size := default (SizeNumber 16) (size p) |}.

(** [<FileIcon filename={name} />]: the other two props left out. *)
Definition props (name : FilenameProp) : Props :=
  {| filename := name; className := None; size := None |}.

(** The extensions the [switch] has a case for. *)
Definition recognized : list string :=
  ["pdf"; "doc"; "docx"; "xls"; "xlsx"; "ppt"; "pptx"; "zip"; "tgz"; "tar";
   "gz"].

(** The lookup as the specification words it: the extension is the
    substring after the last [.], compared case-insensitively; a name with
    no [.] has no extension and gets the generic icon. *)
Definition spec_icon (name : string) : Component :=
  match Str.afterLast "." name with
  | Some e => switch (Str.toLowerCase e)
  | None => FaFileAlt
  end.

End Icon.

(** ** JavaScript values (what js-yaml's [load] returns) *)

Module Js.

(** The values a YAML document of the core types loads to: [undefined] (an
    empty document), [null], booleans, numbers, strings, [Date] objects
    (YAML timestamps such as [2024-06-01], carried by their time value in
    milliseconds since the epoch), arrays and plain objects.  Numbers are
    the integral ones; fractional numbers and [NaN] are not represented,
    nor are aliases that make a value contain itself.  [js-yaml] rejects a
    mapping with a repeated key, so the property list of an object has each
    key once; no value of a property is a function. *)
Inductive Value :=
| VUndefined
| VNull
| VBool (b : bool)
| VNumber (n : Z)
| VString (s : string)
| VDate (t : Z)
| VArray (items : list Value)
| VObject (props : list (string * Value)).

(** [{}] *)
Definition emptyObject : Value := VObject [].

(** ToBoolean: what [x ? _ : _] and [x || _] test. *)
Definition ToBoolean (v : Value) : bool :=
  match v with
  | VUndefined | VNull => false
  | VBool b => b
  | VNumber n => negb (Z.eqb n 0)
  | VString s => negb (String.eqb s EmptyString)
  | VDate _ | VArray _ | VObject _ => true
  end.

(** [a || b] *)
Definition or (a b : Value) : Value := if ToBoolean a then a else b.

Fixpoint lookupProp (key : string) (props : list (string * Value)) : Value :=
  match props with
  | [] => VUndefined
  | (k, v) :: rest => if String.eqb k key then v else lookupProp key rest
  end.

(** [v.key] for the two keys the catalog reads, [format] and [date]: an own
    property of a plain object; no other value, and no prototype, has
    either. *)
Definition get (key : string) (v : Value) : Value :=
  match v with
  | VObject props => lookupProp key props
  | _ => VUndefined
  end.

(** Is [key] an own property of the object? *)
Definition hasOwn (key : string) (props : list (string * Value)) : bool :=
  existsb (fun p => String.eqb p.1 key) props.

(** TimeClip: a time value beyond 8.64e15 ms is not a date. *)
Definition TimeClip (t : Z) : option Z :=
  if Z.leb (Z.abs t) 8640000000000000 then Some t else None.

(** The integers every one of which a number holds exactly: up to 2^53. *)
Definition isSafeInteger (n : Z) : bool := Z.leb (Z.abs n) 9007199254740992.

Section Engine.

(** The conversions the language leaves to the engine and to the time zone
    of the build machine: [Date.parse] ([None] is [NaN]) and
    [Date.prototype.toString]; and the digits [Number.prototype.toString]
    prints for a number beyond 2^53, which are those of the nearest short
    decimal, in exponent form from 1e21 on. *)
Variable Date_parse : string -> option Z.
Variable Date_toString : Z -> string.
Variable Number_toString : Z -> string.

(** ToString, as applied by [+] to the right operand of ["." + v], and by
    [new Date(v)] to an array or an object; [None]: it throws a TypeError.
    An object is converted by the [toString] it inherits, unless it has a
    property of that name of its own: that one is no function, the
    inherited [valueOf] then returns the object itself, and the conversion
    throws.  An array is joined, each element converted in turn. *)
Fixpoint ToString (v : Value) : option string :=
  match v with
  | VUndefined => Some "undefined"
  | VNull => Some "null"
  | VBool true => Some "true"
  | VBool false => Some "false"
  | VNumber n =>
      Some (if isSafeInteger n then NilZero.string_of_int (Z.to_int n)
            else Number_toString n)
  | VString s => Some s
  | VDate t => Some (Date_toString t)
  | VArray items =>
      String.concat "," <$>
        (fix join (l : list Value) : option (list string) :=
           match l with
           | [] => Some []
           | x :: rest =>
               s ← match x with
                   | VUndefined | VNull => Some EmptyString
                   | _ => ToString x
                   end;
               (s ::.) <$> join rest
           end) items
  | VObject props =>
      if hasOwn "toString" props then None else Some "[object Object]"
  end.

(** [new Date(v)]: [None] when it throws, else the time value of the date,
    itself [None] for [NaN] (an invalid date).  A [Date] keeps its time
    value, a string is parsed, an array or an object is converted to a
    string and parsed, anything else is converted to a number and
    clipped. *)
Definition newDate (v : Value) : option (option Z) :=
  match v with
  | VDate t => Some (Some t)
  | VString s => Some (Date_parse s)
  | VArray _ | VObject _ => s ← ToString v; Some (Date_parse s)
  | VUndefined => Some None
  | VNull => Some (Some 0)
  | VBool b => Some (Some (if b then 1 else 0))
  | VNumber n => Some (TimeClip n)
  end.

End Engine.

(** [Array.prototype.sort(comparefn)], for a comparator that may throw
    ([None]); the sort then throws too.  The language requires the sort to
    be stable and, for a comparator that is consistent on the elements, to
    order the array by it: the result is then the one of this stable
    insertion sort, whatever the engine's algorithm.  For an inconsistent
    comparator the order is the engine's own; the statements about the
    order below are about consistent comparators.  [comparefn x y <= 0]
    keeps [x], which came first, in front of [y]. *)
Section Sort.
Context {A : Type} (comparefn : A -> A -> option Z).

Fixpoint insert (x : A) (sorted : list A) : option (list A) :=
  match sorted with
  | [] => Some [x]
  | y :: rest =>
      c ← comparefn x y;
      if Z.leb c 0 then Some (x :: y :: rest)
      else (y ::.) <$> insert x rest
  end.

Fixpoint sort (l : list A) : option (list A) :=
  match l with
  | [] => Some []
  | x :: rest => sorted ← sort rest; insert x sorted
  end.
End Sort.

(** The same sort for a comparator that returns: what [sort] computes when
    no call of the comparator throws. *)
Section StableSort.
Context {A : Type} (comparefn : A -> A -> Z).

(** [x] may stay in front of [y]. *)
Definition keeps (x y : A) : Prop := comparefn x y <= 0.

Fixpoint stableInsert (x : A) (sorted : list A) : list A :=
  match sorted with
  | [] => [x]
  | y :: rest =>
      if Z.leb (comparefn x y) 0 then x :: y :: rest
      else y :: stableInsert x rest
  end.

Fixpoint stableSort (l : list A) : list A :=
  match l with
  | [] => []
  | x :: rest => stableInsert x (stableSort rest)
  end.
End StableSort.

End Js.

(** ** The catalog builder ([getAllDocs]) *)

Module Catalog.
Import Js.

(** *** The file system under [./public/docs] *)

(** What reading a file and loading it as YAML comes to:
    [fs.readFileSync] throws, [yaml.load] throws, or [yaml.load] returns. *)
Inductive FileBody :=
| Unreadable
| InvalidYaml
| Loaded (v : Value).

(** A node of the tree.  A directory that cannot be listed
    ([fs.readdirSync] throws) has no entries; [Other] is a link, a socket
    or the like: neither [isFile()] nor [isDirectory()]. *)
Inductive Node :=
| File (body : FileBody)
| Directory (entries : option (list (string * Node)))
| Other.

(** A directory entry, [fs.Dirent]: its name, and the node that
    [path.join(dir, name)] resolves to. *)
Definition Dirent : Type := string * Node.

Definition isFile (d : Dirent) : bool :=
  match d.2 with File _ => true | _ => false end.

Definition isDirectory (d : Dirent) : bool :=
  match d.2 with Directory _ => true | _ => false end.

(** [fs.readdirSync(dir, { withFileTypes: true })]; [None]: it throws. *)
Definition readdirSync (n : Node) : option (list Dirent) :=
  match n with
  | Directory (Some entries) => Some entries
  | Directory None | File _ | Other => None
  end.

(** [readYAML]: both exceptions are caught and give [{}]; so does a
    document that loads to a falsy value. *)
Definition readYAML (n : Node) : Value :=
  match n with
  | File (Loaded v) => or v emptyObject
  | File Unreadable | File InvalidYaml => emptyObject
  | Directory _ | Other => emptyObject
  end.

(** *** Records *)

Record Doc := {
  project : string;
  filename : string;
  slug : string;
  meta : Value;
  url : string
}.

(** The sidecar test of the [filter]: [name.endsWith(".yml") ||
    name.endsWith(".yaml")]. *)
Definition isYamlName (name : string) : bool :=
  Str.endsWith name ".yml" || Str.endsWith name ".yaml".

Definition isSidecar (f : Dirent) : bool := isFile f && isYamlName f.1.

(** [/\.(yml|yaml)$/i] tried at the start of [s]: because of the [$], it
    matches there when [s] is, whatever the case, [.yml] or [.yaml]. *)
Definition matchesYamlExt (s : string) : bool :=
  let l := Str.toLowerCase s in
  String.eqb l ".yml" || String.eqb l ".yaml".

(** [name.replace(/\.(yml|yaml)$/i, empty)]: the first position, from the
    left, where the expression matches is cut off; a name with no match is
    unchanged. *)
Fixpoint stripYamlExt (name : string) : string :=
  if matchesYamlExt name then EmptyString
  else match name with
       | EmptyString => EmptyString
       | String c rest => String c (stripYamlExt rest)
       end.

(** *** The sidecars of a tree

    The vocabulary of the statements below: which entries of the tree the
    builder makes a record of, in the order it meets them. *)

(** The project directories: the entries of the root that are
    directories. *)
Definition projectDirsOf (root : Node) : list Dirent :=
  List.filter isDirectory (default [] (readdirSync root)).

(** The sidecars of one project directory, each with the project's name. *)
Definition sidecarsIn (dir : Dirent) : list (string * Dirent) :=
  (fun f => (dir.1, f)) <$> List.filter isSidecar (default [] (readdirSync dir.2)).

Definition sidecarsOf (root : Node) : list (string * Dirent) :=
  projectDirsOf root ≫= sidecarsIn.

(** The root and every project directory can be listed. *)
Definition listable (root : Node) : Prop :=
  is_Some (readdirSync root) ∧
  Forall (fun dir => is_Some (readdirSync dir.2)) (projectDirsOf root).

(** Every entry of the root has a name (the file system has no empty
    names). *)
Definition namedEntries (root : Node) : Prop :=
  Forall (fun d : Dirent => d.1 ≠ EmptyString) (default [] (readdirSync root)).

(** A sidecar that cannot be read, or whose text is not YAML. *)
Definition broken (f : Dirent) : Prop :=
  f.2 = File Unreadable ∨ f.2 = File InvalidYaml.

(** *** Sidecars that go bad

    The same tree after some of its files have become unreadable or have
    stopped being YAML; which ones is given by project and file name. *)

Inductive Damage :=
| Intact
| MadeUnreadable
| MadeInvalid.

#[global] Instance Damage_eq_dec : EqDecision Damage.
Proof. solve_decision. Defined.

Definition damaged (how : Damage) (n : Node) : Node :=
  match how, n with
  | MadeUnreadable, File _ => File Unreadable
  | MadeInvalid, File _ => File InvalidYaml
  | _, _ => n
  end.

Definition damagedEntry (plan : string -> Damage) (f : Dirent) : Dirent :=
  (f.1, damaged (plan f.1) f.2).

Definition damagedDir (plan : string -> string -> Damage) (dir : Dirent)
    : Dirent :=
  (dir.1,
   match dir.2 with
   | Directory (Some files) =>
       Directory (Some (damagedEntry (plan dir.1) <$> files))
   | n => n
   end).

Definition damage (plan : string -> string -> Damage) (root : Node) : Node :=
  match root with
  | Directory (Some entries) => Directory (Some (damagedDir plan <$> entries))
  | n => n
  end.

(** The sidecar [s] of the tree, as it is in the damaged tree. *)
Definition damagedSidecar (plan : string -> string -> Damage)
    (s : string * Dirent) : string * Dirent :=
  (s.1, damagedEntry (plan s.1) s.2).

(** The record of a sidecar with no metadata. *)
Definition blankDoc (project name : string) : Doc :=
  {| project := project;
     filename := stripYamlExt name +:+ ".undefined";
     slug := stripYamlExt name;
     meta := emptyObject;
     url := "/docs/" +:+ project +:+ "/" +:+ stripYamlExt name +:+ ".undefined" |}.

Section Engine.
Variable Date_parse : string -> option Z.
Variable Date_toString : Z -> string.
Variable Number_toString : Z -> string.

(** The body of the inner loop: the record pushed for [propFile]; [None]
    when ["." + meta.format] throws. *)
Definition docOf (project : string) (propFile : Dirent) : option Doc :=
  let meta := or (readYAML propFile.2) emptyObject in
  let slug := stripYamlExt propFile.1 in
  format ← ToString Date_toString Number_toString (get "format" meta);
  let filename := (stripYamlExt propFile.1 +:+ ".") +:+ format in
  Some {| project := project;
          filename := filename;
          slug := slug;
          meta := meta;
          url := "/docs/" +:+ project +:+ "/" +:+ filename |}.

(** The inner loop: one [projects.push] per sidecar, in listing order. *)
Fixpoint pushDocs (project : string) (files : list Dirent)
    (projects : list Doc) : option (list Doc) :=
  match files with
  | [] => Some projects
  | propFile :: rest =>
      doc ← docOf project propFile;
      pushDocs project rest (projects ++ [doc])
  end.

(** The outer loop, threading the array [projects]; listing a project
    directory may throw, which ends the whole call. *)
Fixpoint scanProjects (projectDirs : list Dirent) (projects : list Doc)
    : option (list Doc) :=
  match projectDirs with
  | [] => Some projects
  | dir :: rest =>
      entries ← readdirSync dir.2;
      projects' ← pushDocs dir.1 (List.filter isSidecar entries) projects;
      scanProjects rest projects'
  end.

(** [meta.date ? new Date(meta.date) : new Date(0)]: [None] when it throws,
    else the time value of the date ([None]: an invalid date). *)
Definition dateOf (d : Doc) : option (option Z) :=
  let date := get "date" (meta d) in
  if ToBoolean date
  then newDate Date_parse Date_toString Number_toString date
  else Some (Some 0).

(** The comparator, [db - da]; the number is [None] for [NaN]. *)
Definition byDate (a b : Doc) : option (option Z) :=
  da ← dateOf a; db ← dateOf b;
  Some (ta ← da; tb ← db; Some (tb - ta)).

(** What [sort] makes of the comparator's result: [NaN] counts as [0]. *)
Definition comparefn (a b : Doc) : option Z := default 0 <$> byDate a b.

(** [getAllDocs], on the node at [./public/docs] ([None]: nothing there).
    The result is [None] when the call throws. *)
Definition getAllDocs (root : option Node) : option (list Doc) :=
  match root with
  | None => Some []
  | Some docs =>
      entries ← readdirSync docs;
      projects ← scanProjects (List.filter isDirectory entries) [];
      sort comparefn projects
  end.

(** *** The order of the output *)

(** The date a record is sorted by, when it has a valid one: its time
    value.  [None]: the date is invalid, or its conversion throws. *)
Definition sortDate (d : Doc) : option Z := mjoin (dateOf d).

(** The number the sort reads when the comparator returns. *)
Definition order (a b : Doc) : Z := default 0 (comparefn a b).

(** [x >= y] on time values; a comparison with [NaN] is false. *)
Definition dateGe (x y : option Z) : Prop :=
  match x, y with
  | Some a, Some b => b <= a
  | _, _ => False
  end.

(** Sorted by date, descending: each record's date is at least the date
    of the next one. *)
Definition sortedByDateDesc (docs : list Doc) : Prop :=
  forall (i : nat) (a b : Doc),
    docs !! i = Some a -> docs !! S i = Some b ->
    dateGe (sortDate a) (sortDate b).

(** A record with no date to sort by: [meta.date] is missing (or falsy),
    and the comparator takes the epoch for it. *)
Definition undated (d : Doc) : Prop := ToBoolean (get "date" (meta d)) = false.

(** The sidecar of the record has a [date] field. *)
Definition hasDateField (d : Doc) : Prop :=
  match meta d with
  | VObject props => "date" ∈ props.*1
  | _ => False
  end.

(** The record's date is a valid one, after the epoch. *)
Definition datedAfterEpoch (d : Doc) : Prop :=
  exists t : Z, sortDate d = Some t /\ 0 < t.

(** The time a record is sorted by, when its date is valid. *)
Definition timeOf (d : Doc) : Z := default 0 (sortDate d).

(** The record of a sidecar, from the pair [sidecarsOf] lists. *)
Definition docOfSidecar (s : string * Dirent) : option Doc := docOf s.1 s.2.

(** The records the scan pushes, in the order it meets the sidecars;
    [None] when one of them throws. *)
Definition recordsOf (root : Node) : option (list Doc) :=
  mapM docOfSidecar (sidecarsOf root).

End Engine.

End Catalog.

(** ** Example trees *)

Module Examples.
Import Js Catalog.

(** The examples are closed terms and need an engine.  Their dates are YAML
    timestamps or numbers, their formats are strings and none of their
    numbers is printed, so none of the engine's conversions is reached:
    this engine recognizes no date string, prints every date as the
    invalid one and every large number as infinite. *)
Definition Date_parse (s : string) : option Z := None.
Definition Date_toString (t : Z) : string := "Invalid Date".
Definition Number_toString (n : Z) : string := "Infinity".

(** A sidecar that loads to the mapping [props]. *)
Definition sidecar (props : list (string * Value)) : Node :=
  File (Loaded (VObject props)).

(** A root with the single project directory [projectA]. *)
Definition projectA (files : list Dirent) : Node :=
  Directory (Some [("projectA", Directory (Some files))]).

(** Time values: 2024-01-01, 2024-06-01 and 1960-01-01, at 00:00 UTC. *)
Definition t_2024_01_01 : Z := 1704067200000.
Definition t_2024_06_01 : Z := 1717200000000.
Definition t_1960_01_01 : Z := -315619200000.

Definition intro_yml : Dirent :=
  ("intro.yml", sidecar [("format", VString "pdf"); ("date", VDate t_2024_01_01)]).
Definition update_yaml : Dirent :=
  ("update.yaml", sidecar [("format", VString "docx"); ("date", VDate t_2024_06_01)]).
Definition notes_yml : Dirent :=
  ("notes.yml", sidecar [("format", VString "txt")]).

(** The scenario of the specification: [intro.yml] and [update.yaml]. *)
Definition scenario : Node := projectA [intro_yml; update_yaml].

(** The scenario in a wider tree: an undated sidecar listed first, a sidecar
    that is not YAML, one that cannot be read, a nested directory, a file
    that is no sidecar, and next to [projectA] a file and an empty project. *)
Definition mixed : Node :=
  Directory (Some [
    ("README.md", File Unreadable);
    ("projectA", Directory (Some [
       notes_yml;
       ("broken.yml", File InvalidYaml);
       intro_yml;
       ("locked.yaml", File Unreadable);
       ("drafts", Directory (Some [("draft.yml", sidecar [])]));
       ("report.pdf", File Unreadable);
       update_yaml]));
    ("projectB", Directory (Some []))]).

(** [date: 9000000000000000]: a number beyond the range of time values. *)
Definition overflowDate : Node :=
  projectA [
    ("far.yml", sidecar [("format", VString "pdf"); ("date", VNumber 9000000000000000)]);
    intro_yml].

(** An undated sidecar listed before one dated 1960-01-01. *)
Definition beforeEpoch : Node :=
  projectA [
    notes_yml;
    ("old.yml", sidecar [("format", VString "pdf"); ("date", VDate t_1960_01_01)])].

(** A sidecar whose extension is in upper case. *)
Definition upperCase : Node :=
  projectA [("REPORT.YML", sidecar [("format", VString "pdf")])].

(** A sidecar whose name is the extension alone. *)
Definition bareExtension : Node :=
  projectA [(".yml", sidecar [("format", VString "pdf")])].

(** [format: {toString: 1}]: a format that no string can be made of. *)
Definition ownToString : Value := VObject [("toString", VNumber 1)].

Definition evil_yml : Dirent :=
  ("evil.yml", sidecar [("format", ownToString)]).

(** A sidecar that is not YAML next to one with such a format. *)
Definition evilFormat : Node :=
  projectA [("broken.yml", File InvalidYaml); evil_yml].

(** A sidecar with such a date, alone and next to another one. *)
Definition odd_yml : Dirent :=
  ("odd.yml", sidecar [("format", VString "pdf"); ("date", ownToString)]).

Definition evilDateAlone : Node := projectA [odd_yml].
Definition evilDate : Node := projectA [odd_yml; intro_yml].

(** The records of these sidecars. *)
Definition update_doc : Doc :=
  {| project := "projectA"; filename := "update.docx"; slug := "update";
     meta := VObject [("format", VString "docx"); ("date", VDate t_2024_06_01)];
     url := "/docs/projectA/update.docx" |}.
Definition intro_doc : Doc :=
  {| project := "projectA"; filename := "intro.pdf"; slug := "intro";
     meta := VObject [("format", VString "pdf"); ("date", VDate t_2024_01_01)];
     url := "/docs/projectA/intro.pdf" |}.
Definition notes_doc : Doc :=
  {| project := "projectA"; filename := "notes.txt"; slug := "notes";
     meta := VObject [("format", VString "txt")];
     url := "/docs/projectA/notes.txt" |}.
Definition broken_doc : Doc := blankDoc "projectA" "broken.yml".
Definition locked_doc : Doc := blankDoc "projectA" "locked.yaml".
Definition far_doc : Doc :=
  {| project := "projectA"; filename := "far.pdf"; slug := "far";
     meta := VObject [("format", VString "pdf");
                      ("date", VNumber 9000000000000000)];
     url := "/docs/projectA/far.pdf" |}.
Definition old_doc : Doc :=
  {| project := "projectA"; filename := "old.pdf"; slug := "old";
     meta := VObject [("format", VString "pdf"); ("date", VDate t_1960_01_01)];
     url := "/docs/projectA/old.pdf" |}.
Definition odd_doc : Doc :=
  {| project := "projectA"; filename := "odd.pdf"; slug := "odd";
     meta := VObject [("format", VString "pdf"); ("date", ownToString)];
     url := "/docs/projectA/odd.pdf" |}.

(** [update.yaml] of [projectA] becomes unreadable. *)
Definition loseUpdate (project name : string) : Damage :=
  if String.eqb project "projectA" && String.eqb name "update.yaml"
  then MadeUnreadable else Intact.

End Examples.

(** ** The build target (astro.config.ts) *)

Module Astro.

(** One entry of [config]. *)
Record Settings := {
  SITE_URL : string;
  BASE_PATH : string
}.

(** [const config = { local: ..., production: ... }]: its own properties. *)
Definition config : list (string * Settings) :=
  [("local",
    {| SITE_URL := "http://localhost:4321"; BASE_PATH := EmptyString |});
   ("production",
    {| SITE_URL := "https://esa-apex.github.io/";
       BASE_PATH := "/apex_document_repo/" |})].

(** The names every object inherits from [Object.prototype]: [config] is an
    object literal, and [config[key]] finds them when [key] is no own
    property. *)
Definition objectPrototype : list string :=
  ["constructor"; "hasOwnProperty"; "isPrototypeOf"; "propertyIsEnumerable";
   "toLocaleString"; "toString"; "valueOf"; "__proto__"; "__defineGetter__";
   "__defineSetter__"; "__lookupGetter__"; "__lookupSetter__"].

(** What [config[key]] evaluates to: an entry, a member of
    [Object.prototype] (a function, or the prototype itself), or
    [undefined]. *)
Inductive Property :=
| Own (s : Settings)
| Inherited
| Absent.

Fixpoint ownProperty (key : string) (entries : list (string * Settings))
    : option Settings :=
  match entries with
  | [] => None
  | (k, s) :: rest => if String.eqb k key then Some s else ownProperty key rest
  end.

Definition getProperty (key : string) : Property :=
  match ownProperty key config with
  | Some s => Own s
  | None =>
      if existsb (String.eqb key) objectPrototype then Inherited else Absent
  end.

(** [process.env.BUILD_TARGET ?? "local"]: an environment variable is a
    string when it is set and [undefined] when it is not; [??] replaces
    [undefined] only. *)
Definition buildTarget (BUILD_TARGET : option string) : string :=
  default "local" BUILD_TARGET.

(** The two fields of the exported configuration that depend on the target;
    [None] is [undefined]. *)
Record UserConfig := {
  site : option string;
  base : option string
}.

(** The module, as a function of the environment variable.
    [const { SITE_URL, BASE_PATH } = config[buildTarget]] throws a TypeError
    on [undefined] (the result is [None]) and reads two missing properties
    off an inherited member. *)
Definition astroConfig (BUILD_TARGET : option string) : option UserConfig :=
  match getProperty (buildTarget BUILD_TARGET) with
  | Own s => Some {| site := Some (SITE_URL s); base := Some (BASE_PATH s) |}
  | Inherited => Some {| site := None; base := None |}
  | Absent => None
  end.

End Astro.

(** ** More example trees *)

Module MoreExamples.
Import Js Catalog Examples.

(** The scenario with its two sidecars listed the other way round. *)
Definition scenarioReversed : Node := projectA [update_yaml; intro_yml].

End MoreExamples.

(** * Properties *)

(** ** Strings *)

Section StrFacts.
Import Str.

(** [+:+] does not unfold by [simpl]: its two equations. *)
Lemma string_app_nil_l (s : string) : EmptyString +:+ s = s.
Proof. done. Qed.

Lemma string_app_cons (d : ascii) (s t : string) :
  String d s +:+ t = String d (s +:+ t).
Proof. done. Qed.

Lemma string_app_assoc (s t u : string) : (s +:+ t) +:+ u = s +:+ t +:+ u.
Proof.
  induction s as [|c s IH]; [done|]. by rewrite !string_app_cons, IH.
Qed.

Lemma split_afterLast (c : ascii) (s : string) :
  match split c s with
  | [] => False
  | [piece] => afterLast c s = None ∧ piece = s
  | _ :: pieces => ∃ e, afterLast c s = Some e ∧ last pieces = Some e
  end.
Proof.
  induction s as [|d s IH]; simpl; [done|].
  destruct (Ascii.eqb d c) eqn:Hd.
  - destruct (split c s) as [|p [|q r]]; [done| |].
    + destruct IH as [-> ->]. by exists s.
    + destruct IH as (e & -> & He). by exists e.
  - destruct (split c s) as [|p [|q r]]; [done| |].
    + destruct IH as [-> ->]. done.
    + destruct IH as (e & -> & He). by exists e.
Qed.

(** [split(c).pop()]: the part after the last [c], or the whole string when
    [c] does not occur. *)
Lemma last_split (c : ascii) (s : string) :
  last (split c s) = Some (default s (afterLast c s)).
Proof.
  pose proof (split_afterLast c s) as H.
  destruct (split c s) as [|p [|q r]]; [done| |].
  - by destruct H as [-> ->].
  - destruct H as (e & -> & He). simpl in *. done.
Qed.

Lemma afterLast_contains (c : ascii) (s : string) :
  contains c s = false → afterLast c s = None.
Proof.
  induction s as [|d s IH]; simpl; [done|].
  intros [Hd Hs]%orb_false_iff. by rewrite IH, Hd.
Qed.

Lemma toLowerCase_length (s : string) :
  String.length (toLowerCase s) = String.length s.
Proof. induction s; simpl; congruence. Qed.

Lemma endsWith_app (s suffix : string) :
  endsWith s suffix = true ↔ ∃ base, s = base +:+ suffix.
Proof.
  split.
  - induction s as [|d s IH]; cbn [endsWith].
    + destruct (String.eqb_spec EmptyString suffix) as [<-|]; simpl; [|done].
      by exists EmptyString.
    + destruct (String.eqb_spec (String d s) suffix) as [<-|]; simpl.
      * by exists EmptyString.
      * intros [base ->]%IH. by exists (String d base).
  - intros [base ->].
    induction base as [|d base IH]; rewrite ?string_app_nil_l, ?string_app_cons.
    + destruct suffix; cbn [endsWith]; by rewrite String.eqb_refl.
    + cbn [endsWith]. by destruct (String.eqb _ _).
Qed.

End StrFacts.

(** ** The file-icon lookup *)

Section IconFacts.
Import Str Icon.

Lemma ext_Name (s : string) :
  ext (Name s) = toLowerCase (default s (afterLast "." s)).
Proof.
  unfold ext. assert (orEmpty (Some s) = s) as -> by by destruct s.
  rewrite last_split. simpl. by destruct (toLowerCase _).
Qed.

Lemma switch_recognized (e : string) :
  e ∈ recognized ∨ switch e = FaFileAlt.
Proof.
  unfold switch, recognized.
  repeat match goal with
         | |- context [String.eqb e ?x] =>
             destruct (String.eqb_spec e x) as [->|];
               [left; apply list_elem_of_In; simpl; tauto|]
         end.
  by right.
Qed.

End IconFacts.

Section IconClaims.
Import Str Icon.

(** C9, as the specification words it, fails: the name [pdf] has no [.],
    hence no extension, and the lookup still returns the pdf icon where the
    specification's lookup returns the generic one. *)
Lemma C9_counterexample_pdf_without_dot :
  contains "." "pdf" = false ∧
  spec_icon "pdf" = FaFileAlt ∧
  component (FileIcon (props (Name "pdf"))) = FaFilePdf.
Proof. by vm_compute. Qed.

(** C9 (amended): the icon depends on the file name only; the extension is
    the lower-cased part of the name after its last [.], and the whole
    lower-cased name when it has no [.]; an extension outside the eleven
    recognized ones (the empty one too) gets the generic icon; [report.PDF]
    gets the pdf icon, [archive.tar.gz] the archive icon through [gz], and
    [notes] the generic icon. *)
Theorem C9_icon_from_last_extension :
  (∀ f c z,
     component (FileIcon {| filename := f; className := c; size := z |})
     = switch (ext f)) ∧
  (∀ s, ext (Name s) = toLowerCase (default s (afterLast "." s))) ∧
  (∀ s, component (FileIcon (props (Name s)))
        = match afterLast "." s with
          | Some e => switch (toLowerCase e)
          | None => switch (toLowerCase s)
          end) ∧
  (∀ e, e ∈ recognized ∨ switch e = FaFileAlt) ∧
  switch EmptyString = FaFileAlt ∧
  component (FileIcon (props (Name "report.PDF"))) = FaFilePdf ∧
  ext (Name "archive.tar.gz") = "gz" ∧
  component (FileIcon (props (Name "archive.tar.gz"))) = FaFileArchive ∧
  component (FileIcon (props (Name "notes"))) = FaFileAlt.
Proof.
  split_and!; try by vm_compute.
  - apply ext_Name.
  - intros s. cbn [FileIcon component props filename].
    rewrite ext_Name. by destruct (afterLast "." s).
  - apply switch_recognized.
Qed.

Lemma switch_recognized_not_generic (e : string) :
  e ∈ recognized → switch e ≠ FaFileAlt.
Proof.
  unfold recognized. rewrite !elem_of_cons, elem_of_nil.
  intros H; repeat destruct H as [->|H]; by vm_compute.
Qed.

(** C10: a name with no [.] that is, whatever its case, one of the
    recognized extensions gets that extension's icon and not the generic
    one ([pdf] the pdf icon, [ZIP] the archive icon); an undefined, null or
    empty file name gets the generic icon. *)
Theorem C10_whole_name_is_the_extension :
  (∀ s c z,
     contains "." s = false → toLowerCase s ∈ recognized →
     let icon :=
       component (FileIcon {| filename := Name s; className := c; size := z |})
     in icon = switch (toLowerCase s) ∧ icon ≠ FaFileAlt) ∧
  component (FileIcon (props (Name "pdf"))) = FaFilePdf ∧
  component (FileIcon (props (Name "ZIP"))) = FaFileArchive ∧
  component (FileIcon (props Undefined)) = FaFileAlt ∧
  component (FileIcon (props Null)) = FaFileAlt ∧
  component (FileIcon (props (Name EmptyString))) = FaFileAlt.
Proof.
  split_and!; try by vm_compute.
  intros s c z Hdot Hrec. cbn [FileIcon component filename].
  rewrite ext_Name, (afterLast_contains _ _ Hdot). cbn [default].
  split; [done|]. by apply switch_recognized_not_generic.
Qed.

(** C10 on the name [ZIP]. *)
Lemma C10_witness_ZIP :
  contains "." "ZIP" = false ∧
  toLowerCase "ZIP" ∈ recognized ∧
  component (FileIcon {| filename := Name "ZIP"; className := Some "h-4";
                         size := Some (SizeNumber 20) |}) = FaFileArchive.
Proof.
  assert (contains "." "ZIP" = false) as Hdot by reflexivity.
  assert (toLowerCase "ZIP" ∈ recognized) as Hrec
    by (apply list_elem_of_In; vm_compute; tauto).
  split_and!; [done..|].
  apply (proj1 (proj1 C10_whole_name_is_the_extension "ZIP" _ _ Hdot Hrec)).
Defined.

End IconClaims.

(** ** Sorting *)

Section SortFacts.
Context {A : Type} (comparefn : A → A → Z).

Local Abbreviation keeps := (Js.keeps comparefn).

Lemma js_insert_Permutation (x : A) (l : list A) :
  Js.stableInsert comparefn x l ≡ₚ x :: l.
Proof.
  induction l as [|y l IH]; simpl; [done|].
  destruct (Z.leb _ _); [done|].
  rewrite IH. apply Permutation_swap.
Qed.

Lemma js_sort_Permutation (l : list A) : Js.stableSort comparefn l ≡ₚ l.
Proof.
  induction l as [|x l IH]; simpl; [done|].
  by rewrite js_insert_Permutation, IH.
Qed.

Lemma HdRel_js_insert (x y : A) (l : list A) :
  keeps y x → HdRel keeps y l → HdRel keeps y (Js.stableInsert comparefn x l).
Proof.
  intros Hyx Hl. destruct l as [|z l]; simpl; [by constructor|].
  destruct (Z.leb _ _); [by constructor|].
  constructor. by inversion Hl.
Qed.

(** A comparator that never asks for both orders. *)
Hypothesis comparefn_total : ∀ x y, comparefn x y <= 0 ∨ comparefn y x <= 0.

Lemma Sorted_js_insert (x : A) (l : list A) :
  Sorted keeps l → Sorted keeps (Js.stableInsert comparefn x l).
Proof.
  induction 1 as [|y l Hl IH Hy]; simpl; [by repeat constructor|].
  destruct (Z.leb_spec (comparefn x y) 0) as [Hxy|Hxy].
  - by repeat constructor.
  - constructor; [done|]. apply HdRel_js_insert; [|done].
    unfold Js.keeps. destruct (comparefn_total x y); lia.
Qed.

Lemma Sorted_js_sort (l : list A) : Sorted keeps (Js.stableSort comparefn l).
Proof.
  induction l as [|x l IH]; simpl; [constructor|]. by apply Sorted_js_insert.
Qed.

(** The sort is stable: elements that the comparator does not tell apart
    keep the order they had. *)
Lemma js_insert_stable (p : A → bool) (x : A) (l : list A) :
  (∀ y, y ∈ l → p x = true → p y = true → comparefn x y <= 0) →
  List.filter p (Js.stableInsert comparefn x l) = List.filter p (x :: l).
Proof.
  induction l as [|y l IH]; intros Hsame; [done|]. cbn [Js.stableInsert].
  destruct (Z.leb_spec (comparefn x y) 0) as [Hxy|Hxy]; [done|].
  assert (List.filter p (Js.stableInsert comparefn x l) = List.filter p (x :: l))
    as Hrest.
  { apply IH. intros z Hz. apply Hsame. by constructor. }
  cbn [List.filter] in *. rewrite Hrest.
  destruct (p x) eqn:Hx, (p y) eqn:Hy; try done.
  specialize (Hsame y ltac:(by constructor) eq_refl Hy). lia.
Qed.

Lemma js_sort_stable (p : A → bool) (l : list A) :
  (∀ x y, x ∈ l → y ∈ l → p x = true → p y = true → comparefn x y <= 0) →
  List.filter p (Js.stableSort comparefn l) = List.filter p l.
Proof.
  induction l as [|x l IH]; intros Hsame; [done|]. cbn [Js.stableSort].
  rewrite js_insert_stable.
  - cbn [List.filter]. rewrite IH; [done|].
    intros y z Hy Hz. apply Hsame; by constructor.
  - intros y Hy. rewrite js_sort_Permutation in Hy.
    apply Hsame; by repeat constructor.
Qed.

End SortFacts.

(** The sort with a comparator that may throw. *)
Section SortThrows.
Context {A : Type} (comparefn : A → A → option Z).

Local Abbreviation number := (λ x y, default 0 (comparefn x y)).

(** When it returns, it returns what the stable sort computes from the
    numbers the comparator gave. *)
Lemma js_insert_Some (x : A) (sorted out : list A) :
  Js.insert comparefn x sorted = Some out →
  out = Js.stableInsert number x sorted.
Proof.
  revert out. induction sorted as [|y rest IH]; intros out; simpl.
  - by intros [= <-].
  - destruct (comparefn x y) as [c|]; [|done]. simpl.
    destruct (Z.leb c 0); [by intros [= <-]|].
    destruct (Js.insert comparefn x rest) as [out'|]; [|done].
    intros [= <-]. by rewrite (IH out').
Qed.

Lemma js_sort_Some (l out : list A) :
  Js.sort comparefn l = Some out → out = Js.stableSort number l.
Proof.
  revert out. induction l as [|x rest IH]; intros out; simpl.
  - by intros [= <-].
  - destruct (Js.sort comparefn rest) as [sorted|]; [|done]. simpl.
    intros Hout%js_insert_Some. by rewrite <-(IH sorted).
Qed.

(** No call is made on fewer than two elements. *)
Lemma js_sort_short (l : list A) :
  (length l <= 1)%nat → Js.sort comparefn l = Some l.
Proof. destruct l as [|x [|y l]]; simpl; [done..|lia]. Qed.

(** A comparator that returns exactly when its two arguments are fit. *)
Context (fit : A → Prop).
Hypothesis comparefn_fit : ∀ x y, is_Some (comparefn x y) ↔ fit x ∧ fit y.

Lemma js_insert_fit (x : A) (sorted : list A) :
  fit x → Forall fit sorted → is_Some (Js.insert comparefn x sorted).
Proof.
  intros Hx. induction 1 as [|y rest Hy _ IH]; simpl; [done|].
  destruct (proj2 (comparefn_fit x y) (conj Hx Hy)) as [c ->]. simpl.
  destruct (Z.leb c 0); [done|]. by destruct IH as [out ->].
Qed.

(** The sort returns when every element is fit ... *)
Lemma js_sort_fit (l : list A) :
  Forall fit l → is_Some (Js.sort comparefn l).
Proof.
  induction 1 as [|x rest Hx Hrest [sorted Hsorted]]; simpl; [done|].
  rewrite Hsorted. simpl. apply js_insert_fit; [done|].
  rewrite (js_sort_Some _ _ Hsorted), js_sort_Permutation. done.
Qed.

(** ... and only then, from two elements on: every element is compared at
    least once. *)
Lemma js_sort_Some_fit (l out : list A) :
  Js.sort comparefn l = Some out → (2 <= length l)%nat → Forall fit l.
Proof.
  revert out. induction l as [|x rest IH]; intros out; simpl; [lia|].
  destruct (Js.sort comparefn rest) as [sorted|] eqn:Hsorted; [|done]. simpl.
  intros Hout Hlen.
  assert (sorted ≡ₚ rest) as Hperm.
  { rewrite (js_sort_Some _ _ Hsorted). apply js_sort_Permutation. }
  destruct sorted as [|y sorted'].
  { apply Permutation_nil_l in Hperm. subst. simpl in *. lia. }
  simpl in Hout. destruct (comparefn x y) as [c|] eqn:Hc; [|done].
  destruct (proj1 (comparefn_fit x y) (mk_is_Some _ _ Hc)) as [Hx Hy].
  constructor; [done|].
  destruct rest as [|z [|z' rest']].
  - done.
  - symmetry in Hperm. apply Permutation_length_1_inv in Hperm.
    simplify_eq. by constructor.
  - eapply IH; [done|simpl; lia].
Qed.

End SortThrows.

Section SortedFacts.
Context {A : Type}.
Implicit Types (R : relation A) (l : list A).

Lemma Sorted_lookup_next R l (i : nat) (a b : A) :
  Sorted R l → l !! i = Some a → l !! S i = Some b → R a b.
Proof.
  intros Hl. revert i. induction Hl as [|x l Hl IH Hx]; intros i; [done|].
  destruct i as [|i]; simpl.
  - intros [= ->] Hb. destruct Hx as [|y l Hxy]; simplify_eq/=. done.
  - apply IH.
Qed.

Lemma StronglySorted_lookup R l (i j : nat) (a b : A) :
  StronglySorted R l → (i < j)%nat →
  l !! i = Some a → l !! j = Some b → R a b.
Proof.
  intros Hl. revert i j.
  induction Hl as [|x l Hl IH Hx]; intros i j Hij; [done|].
  destruct j as [|j]; [lia|]. destruct i as [|i]; simpl.
  - intros [= ->] Hb. rewrite Forall_forall in Hx.
    apply Hx. by eapply list_elem_of_lookup_2.
  - apply IH. lia.
Qed.

(** A list sorted by [R] is sorted by any relation that contains [R] on the
    elements of the list. *)
Lemma Sorted_on_elements R R' l :
  (∀ a b, a ∈ l → b ∈ l → R a b → R' a b) → Sorted R l → Sorted R' l.
Proof.
  intros HR Hl. induction Hl as [|x l Hl IH Hx]; [constructor|].
  constructor.
  - apply IH. intros a b Ha Hb. apply HR; by constructor.
  - destruct Hx as [|y l Hxy]; constructor.
    apply HR; [by constructor|by repeat constructor|done].
Qed.

End SortedFacts.

(** ** The YAML extension of a sidecar name *)

Section ExtensionFacts.
Import Str Catalog.

Lemma string_app_length (s t : string) :
  String.length (s +:+ t) = (String.length s + String.length t)%nat.
Proof. induction s as [|c s IH]; [done|]. rewrite string_app_cons. simpl. lia. Qed.

Lemma matchesYamlExt_length (s : string) :
  matchesYamlExt s = true → String.length s = 4%nat ∨ String.length s = 5%nat.
Proof.
  unfold matchesYamlExt. rewrite <-(toLowerCase_length s).
  intros [H|H]%orb_true_iff; apply String.eqb_eq in H; rewrite H; auto.
Qed.

Lemma matchesYamlExt_before_yml (d : ascii) (base : string) :
  matchesYamlExt (String d (base +:+ ".yml")) = false.
Proof.
  destruct (matchesYamlExt _) eqn:Hm; [exfalso|done].
  pose proof (matchesYamlExt_length _ Hm) as Hlen.
  cbn [String.length] in Hlen. rewrite string_app_length in Hlen.
  destruct base as [|c base]; [|simpl in Hlen; lia].
  revert Hm. unfold matchesYamlExt. rewrite string_app_nil_l.
  cbn [toLowerCase]. simpl. by destruct (Ascii.eqb _ _).
Qed.

Lemma matchesYamlExt_before_yaml (d : ascii) (base : string) :
  matchesYamlExt (String d (base +:+ ".yaml")) = false.
Proof.
  destruct (matchesYamlExt _) eqn:Hm; [exfalso|done].
  pose proof (matchesYamlExt_length _ Hm) as Hlen.
  cbn [String.length] in Hlen. rewrite string_app_length in Hlen.
  simpl in Hlen. lia.
Qed.

(** The replacement cuts exactly a final [.yml] ... *)
Lemma stripYamlExt_yml (base : string) : stripYamlExt (base +:+ ".yml") = base.
Proof.
  induction base as [|d base IH]; [done|].
  rewrite string_app_cons. cbn [stripYamlExt].
  by rewrite matchesYamlExt_before_yml, IH.
Qed.

(** ... or a final [.yaml]. *)
Lemma stripYamlExt_yaml (base : string) : stripYamlExt (base +:+ ".yaml") = base.
Proof.
  induction base as [|d base IH]; [done|].
  rewrite string_app_cons. cbn [stripYamlExt].
  by rewrite matchesYamlExt_before_yaml, IH.
Qed.

(** A name the filter lets through is its slug followed by the extension. *)
Lemma isYamlName_slug (name : string) :
  isYamlName name = true →
  name = stripYamlExt name +:+ ".yml" ∨ name = stripYamlExt name +:+ ".yaml".
Proof.
  unfold isYamlName.
  intros [[base ->]%endsWith_app|[base ->]%endsWith_app]%orb_true_iff.
  - left. by rewrite stripYamlExt_yml.
  - right. by rewrite stripYamlExt_yaml.
Qed.

(** The slug is empty for the two names that are an extension and nothing
    else, and for no other sidecar name. *)
Lemma slug_empty_iff (name : string) :
  isYamlName name = true →
  stripYamlExt name = EmptyString ↔ name = ".yml" ∨ name = ".yaml".
Proof.
  intros Hname. split.
  - intros Hs. destruct (isYamlName_slug _ Hname) as [H|H];
      rewrite Hs in H; auto.
  - by intros [->| ->].
Qed.

End ExtensionFacts.

(** ** The scan *)

Section MapMFacts.
Context {A B : Type} (f : A → option B).

Lemma mapM_cons (x : A) (l : list A) :
  mapM f (x :: l) = y ← f x; k ← mapM f l; Some (y :: k).
Proof. done. Qed.

Lemma mapM_app (l1 l2 : list A) :
  mapM f (l1 ++ l2) = k1 ← mapM f l1; k2 ← mapM f l2; Some (k1 ++ k2).
Proof.
  induction l1 as [|x l1 IH].
  - simpl. by destruct (mapM f l2).
  - rewrite <-app_comm_cons, !mapM_cons, IH.
    destruct (f x); [|done]. simpl.
    destruct (mapM f l1); [|done]. simpl. by destruct (mapM f l2).
Qed.

Lemma mapM_fmap {C : Type} (g : C → A) (l : list C) :
  mapM f (g <$> l) = mapM (f ∘ g) l.
Proof.
  induction l as [|x l IH]; [done|].
  rewrite fmap_cons, !mapM_cons, IH. done.
Qed.

Lemma mapM_elem_of (l : list A) (k : list B) (x : A) :
  mapM f l = Some k → x ∈ l → ∃ y, f x = Some y ∧ y ∈ k.
Proof.
  intros Hk%mapM_Some_1 Hx.
  apply list_elem_of_lookup_1 in Hx as [i Hi].
  destruct (Forall2_lookup_l _ _ _ _ _ Hk Hi) as (y & Hy & Hxy).
  exists y. split; [done|]. by eapply list_elem_of_lookup_2.
Qed.

Lemma mapM_elem_of_inv (l : list A) (k : list B) (y : B) :
  mapM f l = Some k → y ∈ k → ∃ x, f x = Some y ∧ x ∈ l.
Proof.
  intros Hk%mapM_Some_1 Hy.
  apply list_elem_of_lookup_1 in Hy as [i Hi].
  destruct (Forall2_lookup_r _ _ _ _ _ Hk Hi) as (x & Hx & Hxy).
  exists x. split; [done|]. by eapply list_elem_of_lookup_2.
Qed.

End MapMFacts.

Section ScanFacts.
Import Js Catalog.
Variable Date_parse : string → option Z.
Variable Date_toString : Z → string.
Variable Number_toString : Z → string.

Local Abbreviation docOf := (Catalog.docOf Date_toString Number_toString).
Local Abbreviation docOfSidecar :=
  (Catalog.docOfSidecar Date_toString Number_toString).
Local Abbreviation recordsOf :=
  (Catalog.recordsOf Date_toString Number_toString).
Local Abbreviation getAllDocs :=
  (Catalog.getAllDocs Date_parse Date_toString Number_toString).
Local Abbreviation comparefn :=
  (Catalog.comparefn Date_parse Date_toString Number_toString).
Local Abbreviation order :=
  (Catalog.order Date_parse Date_toString Number_toString).

Lemma pushDocs_mapM (project : string) (files : list Dirent)
    (projects : list Doc) :
  pushDocs Date_toString Number_toString project files projects
  = (projects ++.) <$> mapM (docOf project) files.
Proof.
  revert projects. induction files as [|f files IH]; intros projects.
  - simpl. by rewrite app_nil_r.
  - cbn [pushDocs]. rewrite mapM_cons.
    destruct (docOf project f) as [d|]; [|done]. simpl.
    rewrite IH. destruct (mapM _ files) as [k|]; [|done]. simpl.
    by rewrite <-app_assoc.
Qed.

Lemma docOfSidecar_sidecarsIn (dir : Dirent) (entries : list Dirent) :
  readdirSync dir.2 = Some entries →
  mapM docOfSidecar (sidecarsIn dir)
  = mapM (docOf dir.1) (List.filter isSidecar entries).
Proof.
  intros Hdir. unfold sidecarsIn. rewrite Hdir. simpl.
  by rewrite mapM_fmap.
Qed.

(** Once every project directory can be listed, the outer loop pushes one
    record per sidecar, in the order of the listings, and throws when one
    of the records cannot be made. *)
Lemma scanProjects_listable (dirs : list Dirent) (projects : list Doc) :
  Forall (λ dir, is_Some (readdirSync dir.2)) dirs →
  scanProjects Date_toString Number_toString dirs projects
  = (projects ++.) <$> mapM docOfSidecar (dirs ≫= sidecarsIn).
Proof.
  intros Hdirs. revert projects.
  induction Hdirs as [|dir dirs [entries Hdir] _ IH]; intros projects.
  - simpl. by rewrite app_nil_r.
  - cbn [scanProjects]. rewrite Hdir. cbn [mbind option_bind].
    rewrite pushDocs_mapM, bind_cons, mapM_app.
    rewrite (docOfSidecar_sidecarsIn _ _ Hdir).
    destruct (mapM (docOf dir.1) _) as [k|]; [|done]. simpl.
    rewrite IH. destruct (mapM docOfSidecar _) as [k'|]; [|done]. simpl.
    by rewrite app_assoc.
Qed.

(** It throws as soon as one of them cannot. *)
Lemma scanProjects_inv (dirs : list Dirent) (projects out : list Doc) :
  scanProjects Date_toString Number_toString dirs projects = Some out →
  Forall (λ dir, is_Some (readdirSync dir.2)) dirs.
Proof.
  revert projects. induction dirs as [|dir dirs IH]; intros projects; simpl.
  - by constructor.
  - destruct (readdirSync dir.2) as [entries|] eqn:Hdir; [|done]. simpl.
    destruct (pushDocs _ _ _ _ _) as [projects'|]; [|done]. simpl.
    intros H. constructor; [by rewrite Hdir|by eapply IH].
Qed.

Lemma getAllDocs_listable (root : Node) :
  listable root →
  getAllDocs (Some root) = recordsOf root ≫= sort comparefn.
Proof.
  intros [[entries Hroot] Hdirs].
  unfold Catalog.getAllDocs, Catalog.recordsOf, sidecarsOf.
  unfold projectDirsOf in *. rewrite Hroot in *. simpl in *.
  rewrite (scanProjects_listable _ _ Hdirs).
  by destruct (mapM _ _).
Qed.

Lemma getAllDocs_inv (root : Node) (docs : list Doc) :
  getAllDocs (Some root) = Some docs → listable root.
Proof.
  unfold Catalog.getAllDocs, listable, projectDirsOf.
  destruct (readdirSync root) as [entries|]; [|done]. simpl.
  destruct (scanProjects _ _ _ _) as [projects|] eqn:Hscan; [|done].
  intros _. split; [done|]. by eapply scanProjects_inv.
Qed.

(** A run that returns has made the record of every sidecar and has sorted
    them: the output holds the records of the sidecars, each once. *)
Lemma getAllDocs_records (root : Node) (docs : list Doc) :
  getAllDocs (Some root) = Some docs →
  ∃ records,
    recordsOf root = Some records ∧
    sort comparefn records = Some docs ∧
    docs = stableSort order records ∧
    docs ≡ₚ records.
Proof.
  intros Hdocs. pose proof (getAllDocs_inv _ _ Hdocs) as Hroot.
  rewrite (getAllDocs_listable _ Hroot) in Hdocs.
  destruct (recordsOf root) as [records|]; [|done]. simpl in Hdocs.
  exists records. pose proof (js_sort_Some _ _ _ Hdocs) as ->.
  split_and!; [done..|]. apply js_sort_Permutation.
Qed.

(** What [sidecarsOf] lists: the files with a YAML name in a directory of
    the root. *)
Lemma elem_of_sidecarsOf (root : Node) (project : string) (f : Dirent) :
  (project, f) ∈ sidecarsOf root ↔
  ∃ dir, dir ∈ default [] (readdirSync root) ∧ isDirectory dir = true ∧
         dir.1 = project ∧
         f ∈ default [] (readdirSync dir.2) ∧ isSidecar f = true.
Proof.
  unfold sidecarsOf, projectDirsOf, sidecarsIn.
  rewrite list_elem_of_bind. split.
  - intros (dir & Hf & Hdir).
    apply list_elem_of_fmap in Hf as (f' & [= -> ->] & Hf).
    apply list_elem_of_In, filter_In in Hf as [Hf ?].
    apply list_elem_of_In, filter_In in Hdir as [Hdir ?].
    exists dir. by rewrite <-!list_elem_of_In in *.
  - intros (dir & Hdir & ? & <- & Hf & ?). exists dir. split.
    + apply list_elem_of_fmap. exists f. split; [done|].
      apply list_elem_of_In, filter_In. by rewrite <-list_elem_of_In.
    + apply list_elem_of_In, filter_In. by rewrite <-list_elem_of_In.
Qed.

End ScanFacts.

(** ** The order of the catalog *)

Section OrderFacts.
Import Js Catalog.
Variable Date_parse : string → option Z.
Variable Date_toString : Z → string.
Variable Number_toString : Z → string.

Local Abbreviation getAllDocs :=
  (Catalog.getAllDocs Date_parse Date_toString Number_toString).
Local Abbreviation comparefn :=
  (Catalog.comparefn Date_parse Date_toString Number_toString).
Local Abbreviation order :=
  (Catalog.order Date_parse Date_toString Number_toString).
Local Abbreviation dateOf :=
  (Catalog.dateOf Date_parse Date_toString Number_toString).
Local Abbreviation sortDate :=
  (Catalog.sortDate Date_parse Date_toString Number_toString).
Local Abbreviation timeOf :=
  (Catalog.timeOf Date_parse Date_toString Number_toString).

Lemma sortDate_Some (d : Doc) (t : Z) :
  sortDate d = Some t ↔ dateOf d = Some (Some t).
Proof.
  unfold Catalog.sortDate. destruct (dateOf d) as [[t'|]|]; simpl; naive_solver.
Qed.

(** The comparator returns exactly when both dates can be made. *)
Lemma comparefn_is_Some (a b : Doc) :
  is_Some (comparefn a b) ↔ is_Some (dateOf a) ∧ is_Some (dateOf b).
Proof.
  unfold Catalog.comparefn, byDate.
  destruct (dateOf a), (dateOf b); simpl; split;
    first [by intros [? [=]]|by intros [[? [=]] [? [=]]]|by eauto].
Qed.

(** Between two records with valid dates it is the difference of the
    times. *)
Lemma comparefn_valid (a b : Doc) :
  is_Some (sortDate a) → is_Some (sortDate b) →
  comparefn a b = Some (timeOf b - timeOf a).
Proof.
  intros [ta Ha] [tb Hb]. unfold Catalog.timeOf. rewrite Ha, Hb.
  apply sortDate_Some in Ha, Hb.
  unfold Catalog.comparefn, byDate. by rewrite Ha, Hb.
Qed.

Lemma order_valid (a b : Doc) :
  is_Some (sortDate a) → is_Some (sortDate b) →
  order a b = timeOf b - timeOf a.
Proof.
  intros Ha Hb. unfold Catalog.order. by rewrite comparefn_valid.
Qed.

(** With [NaN] read as [0], the comparator never asks for both orders. *)
Lemma order_total (a b : Doc) : order a b <= 0 ∨ order b a <= 0.
Proof.
  unfold Catalog.order, Catalog.comparefn, byDate.
  destruct (dateOf a) as [[ta|]|], (dateOf b) as [[tb|]|]; simpl; lia.
Qed.

(** Between records with valid dates it orders by time, latest first. *)
Lemma keeps_valid (a b : Doc) :
  is_Some (sortDate a) → is_Some (sortDate b) →
  keeps order a b ↔ timeOf b <= timeOf a.
Proof.
  intros Ha Hb. unfold keeps. rewrite order_valid by done. lia.
Qed.

(** The output is sorted by the comparator. *)
Lemma getAllDocs_Sorted (root : option Node) (docs : list Doc) :
  getAllDocs root = Some docs → Sorted (keeps order) docs.
Proof.
  destruct root as [root|]; [|intros [= <-]; constructor].
  intros (records & _ & _ & -> & _)%getAllDocs_records.
  apply Sorted_js_sort, order_total.
Qed.

(** With valid dates only, every record is at least as recent as all the
    records after it. *)
Lemma getAllDocs_StronglySorted (root : option Node) (docs : list Doc) :
  getAllDocs root = Some docs →
  (∀ d, d ∈ docs → is_Some (sortDate d)) →
  StronglySorted (λ a b, timeOf b <= timeOf a) docs.
Proof.
  intros Hdocs Hvalid. apply Sorted_StronglySorted.
  - intros a b c ??. lia.
  - eapply Sorted_on_elements; [|by eapply getAllDocs_Sorted].
    intros a b Ha Hb. by apply keeps_valid; apply Hvalid.
Qed.

(** A sidecar with no [date] field gives a record with no date to sort by. *)
Lemma lookupProp_missing (key : string) (props : list (string * Value)) :
  key ∉ props.*1 → lookupProp key props = VUndefined.
Proof.
  induction props as [|[k v] props IH]; simpl; [done|].
  rewrite not_elem_of_cons. intros [Hk Hprops].
  destruct (String.eqb_spec k key); [done|]. by apply IH.
Qed.

Lemma undated_without_date_field (d : Doc) : ¬ hasDateField d → undated d.
Proof.
  unfold hasDateField, undated, get.
  destruct (meta d); try done. intros H. by rewrite lookupProp_missing.
Qed.

Lemma undated_sortDate (d : Doc) : undated d → sortDate d = Some 0.
Proof.
  unfold undated, Catalog.sortDate, Catalog.dateOf. by intros ->.
Qed.

End OrderFacts.

Section OrderClaims.
Import Js Catalog.
Variable Date_parse : string → option Z.
Variable Date_toString : Z → string.
Variable Number_toString : Z → string.

Local Abbreviation getAllDocs :=
  (Catalog.getAllDocs Date_parse Date_toString Number_toString).
Local Abbreviation order :=
  (Catalog.order Date_parse Date_toString Number_toString).
Local Abbreviation sortDate :=
  (Catalog.sortDate Date_parse Date_toString Number_toString).
Local Abbreviation timeOf :=
  (Catalog.timeOf Date_parse Date_toString Number_toString).
Local Abbreviation sortedByDateDesc :=
  (Catalog.sortedByDateDesc Date_parse Date_toString Number_toString).
Local Abbreviation datedAfterEpoch :=
  (Catalog.datedAfterEpoch Date_parse Date_toString Number_toString).

(** C1 (amended): when every date present in the output is a valid one, the
    output is sorted by date, descending: of two adjacent records the earlier
    has a date greater than or equal to the later's, a record with no date
    counting as dated at the epoch. *)
Theorem C1_sorted_by_date_descending (root : option Node) (docs : list Doc) :
  getAllDocs root = Some docs →
  (∀ d, d ∈ docs → is_Some (sortDate d)) →
  sortedByDateDesc docs.
Proof.
  intros Hdocs Hvalid i a b Ha Hb.
  pose proof (getAllDocs_Sorted _ _ _ _ _ Hdocs) as Hsorted.
  pose proof (Sorted_lookup_next _ _ _ _ _ Hsorted Ha Hb) as Hab.
  apply list_elem_of_lookup_2 in Ha, Hb.
  apply keeps_valid in Hab; [|by apply Hvalid..].
  destruct (Hvalid a Ha) as [ta Hta], (Hvalid b Hb) as [tb Htb].
  unfold Catalog.timeOf in Hab. rewrite Hta, Htb in *. done.
Qed.

(** C2 (amended): when every date present in the output is a valid one, a
    record with no date to sort by (no [date] field, or a falsy one) stands
    after every record dated later than the epoch, wherever the two sidecars
    were in the listings. *)
Theorem C2_undated_after_dated (root : option Node) (docs : list Doc)
    (i j : nat) (a b : Doc) :
  getAllDocs root = Some docs →
  (∀ d, d ∈ docs → is_Some (sortDate d)) →
  docs !! i = Some a → undated a →
  docs !! j = Some b → datedAfterEpoch b →
  (j < i)%nat.
Proof.
  intros Hdocs Hvalid Ha Hundated Hb (t & Ht & Hpos).
  pose proof (getAllDocs_StronglySorted _ _ _ _ _ Hdocs Hvalid) as Hsorted.
  assert (timeOf a = 0) as Hta.
  { unfold Catalog.timeOf. by rewrite undated_sortDate. }
  assert (timeOf b = t) as Htb.
  { unfold Catalog.timeOf. by rewrite Ht. }
  destruct (decide (j < i)%nat) as [|Hij]; [done|]. exfalso.
  destruct (decide (i = j)) as [->|Hne].
  - simplify_eq. lia.
  - pose proof (StronglySorted_lookup _ _ i j _ _ Hsorted ltac:(lia) Ha Hb).
    simpl in *. lia.
Qed.

End OrderClaims.

Section OrderExamples.
Import Js Catalog Examples.

Local Abbreviation getAllDocs :=
  (Catalog.getAllDocs Date_parse Date_toString Number_toString).
Local Abbreviation docOf := (Catalog.docOf Date_toString Number_toString).
Local Abbreviation dateOf :=
  (Catalog.dateOf Date_parse Date_toString Number_toString).
Local Abbreviation sortDate :=
  (Catalog.sortDate Date_parse Date_toString Number_toString).
Local Abbreviation sortedByDateDesc :=
  (Catalog.sortedByDateDesc Date_parse Date_toString Number_toString).
Local Abbreviation datedAfterEpoch :=
  (Catalog.datedAfterEpoch Date_parse Date_toString Number_toString).

(** The records of the example sidecars are the ones written out. *)
Lemma example_records :
  docOf "projectA" update_yaml = Some update_doc ∧
  docOf "projectA" intro_yml = Some intro_doc ∧
  docOf "projectA" notes_yml = Some notes_doc ∧
  docOf "projectA" ("broken.yml", File InvalidYaml) = Some broken_doc ∧
  docOf "projectA" ("locked.yaml", File Unreadable) = Some locked_doc ∧
  docOf "projectA" odd_yml = Some odd_doc ∧
  docOf "projectA" evil_yml = None.
Proof. by split_and!. Qed.

(** The scenario of the specification: two records, [update] first. *)
Lemma scenario_output :
  getAllDocs (Some scenario) = Some [update_doc; intro_doc].
Proof. reflexivity. Qed.

(** The runs on the example trees do not depend on the engine: none of its
    conversions is called. *)
Lemma examples_any_engine (parse : string → option Z)
    (toString numberToString : Z → string) :
  Forall (λ root,
            Catalog.getAllDocs parse toString numberToString (Some root)
            = getAllDocs (Some root) ∧
            Forall (λ d, Catalog.dateOf parse toString numberToString d
                         = dateOf d)
                   (default [] (getAllDocs (Some root))))
         [scenario; mixed; overflowDate; beforeEpoch; upperCase; bareExtension;
          evilFormat; evilDateAlone; evilDate].
Proof. repeat constructor. Qed.

(** C1, as stated, fails: with [date: 9000000000000000] in [far.yml], a
    number that is no time value, the record of [far.yml] has an invalid
    date, it is first in the output, and its date is not greater than or
    equal to the date of the record after it. *)
Lemma C1_counterexample_invalid_date :
  ∃ far intro,
    getAllDocs (Some overflowDate) = Some [far; intro] ∧
    dateOf far = Some None ∧
    sortDate far = None ∧
    sortDate intro = Some t_2024_01_01 ∧
    ¬ dateGe (sortDate far) (sortDate intro) ∧
    ¬ sortedByDateDesc [far; intro].
Proof.
  eexists _, _. split; [reflexivity|].
  split_and!; [reflexivity|reflexivity|reflexivity|by intros []|].
  intros H. exact (H 0%nat _ _ eq_refl eq_refl).
Qed.

Lemma scenario_dates_valid (d : Doc) :
  d ∈ [update_doc; intro_doc] → is_Some (sortDate d).
Proof.
  intros Hd. apply list_elem_of_In in Hd.
  destruct Hd as [<-|[<-|[]]]; by eexists.
Defined.

Lemma mixed_dates_valid (d : Doc) :
  d ∈ [update_doc; intro_doc; notes_doc; broken_doc; locked_doc] →
  is_Some (sortDate d).
Proof.
  intros Hd. apply list_elem_of_In in Hd.
  destruct Hd as [<-|[<-|[<-|[<-|[<-|[]]]]]]; by eexists.
Defined.

Lemma mixed_output :
  getAllDocs (Some mixed)
  = Some [update_doc; intro_doc; notes_doc; broken_doc; locked_doc].
Proof. reflexivity. Qed.

(** C1 (amended) on the scenario of the specification: both dates are
    valid. *)
Lemma C1_witness_scenario :
  ∃ docs,
    getAllDocs (Some scenario) = Some docs ∧
    (∀ d, d ∈ docs → is_Some (sortDate d)) ∧
    sortedByDateDesc docs.
Proof.
  exists [update_doc; intro_doc]. split; [reflexivity|].
  split; [exact scenario_dates_valid|].
  exact (C1_sorted_by_date_descending Date_parse Date_toString Number_toString
           (Some scenario) _ eq_refl scenario_dates_valid).
Defined.

(** C2, as stated, fails: [notes.yml] has no [date] field, [old.yml] is
    dated 1960-01-01, before the epoch that stands in for a missing date, and
    the record of [notes.yml] comes first. *)
Lemma C2_counterexample_date_before_epoch :
  ∃ notes old,
    getAllDocs (Some beforeEpoch) = Some [notes; old] ∧
    ¬ hasDateField notes ∧
    hasDateField old ∧
    sortDate notes = Some 0 ∧
    sortDate old = Some t_1960_01_01.
Proof.
  eexists _, _. split; [reflexivity|].
  split_and!; try reflexivity.
  - cbn. rewrite !elem_of_cons, elem_of_nil. by intros [?|[]].
  - cbn. rewrite !elem_of_cons. auto.
Qed.

(** C2 (amended) on [mixed]: [notes.yml], undated and listed first, ends up
    after [update.yaml], listed last. *)
Lemma C2_witness_mixed :
  ∃ docs notes update,
    getAllDocs (Some mixed) = Some docs ∧
    docs !! 2%nat = Some notes ∧ undated notes ∧
    docs !! 0%nat = Some update ∧ datedAfterEpoch update ∧
    (0 < 2)%nat.
Proof.
  eexists _, notes_doc, update_doc.
  split; [exact mixed_output|].
  assert (datedAfterEpoch update_doc) as Hdated.
  { exists t_2024_06_01. split; [reflexivity|]. unfold t_2024_06_01. lia. }
  split_and!; [reflexivity|reflexivity|reflexivity|exact Hdated|].
  exact (C2_undated_after_dated Date_parse Date_toString Number_toString
           (Some mixed) _ 2%nat 0%nat _ _ mixed_output mixed_dates_valid
           eq_refl eq_refl eq_refl Hdated).
Defined.

End OrderExamples.

(** ** The records of the catalog *)

Section RecordFacts.
Import Js Catalog.
Variable Date_parse : string → option Z.
Variable Date_toString : Z → string.
Variable Number_toString : Z → string.

Local Abbreviation getAllDocs :=
  (Catalog.getAllDocs Date_parse Date_toString Number_toString).
Local Abbreviation docOf := (Catalog.docOf Date_toString Number_toString).
Local Abbreviation docOfSidecar :=
  (Catalog.docOfSidecar Date_toString Number_toString).
Local Abbreviation recordsOf :=
  (Catalog.recordsOf Date_toString Number_toString).
Local Abbreviation dateOf :=
  (Catalog.dateOf Date_parse Date_toString Number_toString).
Local Abbreviation ToString := (Js.ToString Date_toString Number_toString).

(** What the filter selects: the files whose name ends, letter for letter,
    in [.yml] or [.yaml]. *)
Lemma isSidecar_iff (f : Dirent) :
  isSidecar f = true ↔
  isFile f = true ∧ ∃ base, f.1 = base +:+ ".yml" ∨ f.1 = base +:+ ".yaml".
Proof.
  unfold isSidecar, isYamlName.
  rewrite andb_true_iff, orb_true_iff, !endsWith_app. split.
  - intros [? [[base ?]|[base ?]]]; (split; [done|exists base; auto]).
  - intros [? [base [?|?]]]; (split; [done|]); [left|right]; by exists base.
Qed.

(** Every sidecar has its record in the output. *)
Lemma sidecar_record (root : Node) (docs : list Doc) (project : string)
    (f : Dirent) :
  getAllDocs (Some root) = Some docs →
  (project, f) ∈ sidecarsOf root →
  ∃ d, docOf project f = Some d ∧ d ∈ docs.
Proof.
  intros (records & Hrecords & _ & _ & Hperm)%getAllDocs_records Hf.
  destruct (mapM_elem_of _ _ _ _ Hrecords Hf) as (d & Hd & Hin).
  exists d. by rewrite Hperm.
Qed.

(** Every record of the output is the record of a sidecar. *)
Lemma record_sidecar (root : Node) (docs : list Doc) (d : Doc) :
  getAllDocs (Some root) = Some docs → d ∈ docs →
  ∃ project f, (project, f) ∈ sidecarsOf root ∧ docOf project f = Some d.
Proof.
  intros (records & Hrecords & _ & _ & Hperm)%getAllDocs_records.
  rewrite Hperm. intros Hd.
  destruct (mapM_elem_of_inv _ _ _ _ Hrecords Hd) as ([project f] & ? & ?).
  by exists project, f.
Qed.

Lemma sidecar_name (root : Node) (project : string) (f : Dirent) :
  (project, f) ∈ sidecarsOf root → isYamlName f.1 = true.
Proof.
  intros (dir & _ & _ & _ & _ & Hf)%elem_of_sidecarsOf.
  by apply andb_true_iff in Hf as [_ ?].
Qed.

Lemma sidecar_isFile (root : Node) (project : string) (f : Dirent) :
  (project, f) ∈ sidecarsOf root → isFile f = true.
Proof.
  intros (dir & _ & _ & _ & _ & Hf)%elem_of_sidecarsOf.
  by apply andb_true_iff in Hf as [? _].
Qed.

(** The fields of a record that could be made. *)
Lemma docOf_Some (project : string) (f : Dirent) (d : Doc) :
  docOf project f = Some d →
  Catalog.project d = project ∧
  slug d = stripYamlExt f.1 ∧
  meta d = or (readYAML f.2) emptyObject ∧
  ∃ format,
    ToString (get "format" (meta d)) = Some format ∧
    filename d = slug d +:+ "." +:+ format ∧
    url d = "/docs/" +:+ project +:+ "/" +:+ slug d +:+ "." +:+ format.
Proof.
  unfold Catalog.docOf.
  destruct (ToString _) as [format|] eqn:Hformat; [|done]. simpl.
  intros [= <-]. cbn [Catalog.project slug meta filename url].
  split_and!; [done..|]. exists format. by rewrite string_app_assoc.
Qed.

(** The metadata of a record: the document, when it loads to a truthy
    value, and the empty mapping otherwise. *)
Lemma meta_loaded (n : Node) (v : Value) :
  n = File (Loaded v) → ToBoolean v = true → or (readYAML n) emptyObject = v.
Proof. intros -> Hv. simpl. unfold or. by rewrite Hv, Hv. Qed.

Lemma meta_falsy (n : Node) (v : Value) :
  n = File (Loaded v) → ToBoolean v = false →
  or (readYAML n) emptyObject = emptyObject.
Proof. intros -> Hv. simpl. unfold or at 2. by rewrite Hv. Qed.

Lemma meta_broken (f : Dirent) :
  broken f → readYAML f.2 = emptyObject ∧
             or (readYAML f.2) emptyObject = emptyObject.
Proof. by intros [-> | ->]. Qed.

(** A sidecar with no metadata has its record all the same. *)
Lemma docOf_blank (project : string) (f : Dirent) :
  or (readYAML f.2) emptyObject = emptyObject →
  docOf project f = Some (blankDoc project f.1).
Proof.
  intros Hmeta. unfold Catalog.docOf, blankDoc. rewrite Hmeta. simpl.
  by rewrite string_app_assoc.
Qed.

Lemma dateOf_blank (project name : string) :
  dateOf (blankDoc project name) = Some (Some 0).
Proof. done. Qed.

End RecordFacts.

(** ** Sidecars that go bad *)

Section DamageFacts.
Import Js Catalog.
Variable plan : string → string → Damage.

Lemma filter_fmap_same {A : Type} (p : A → bool) (g : A → A) (l : list A) :
  (∀ x, p (g x) = p x) → List.filter p (g <$> l) = g <$> List.filter p l.
Proof.
  intros Hp. induction l as [|x l IH]; [done|].
  rewrite fmap_cons. cbn [List.filter]. rewrite Hp, IH.
  by destruct (p x).
Qed.

Lemma isSidecar_damagedEntry (project : string) (f : Dirent) :
  isSidecar (damagedEntry (plan project) f) = isSidecar f.
Proof.
  unfold isSidecar, isFile, damagedEntry. simpl.
  by destruct (plan project f.1), f.2.
Qed.

Lemma isDirectory_damagedDir (dir : Dirent) :
  isDirectory (damagedDir plan dir) = isDirectory dir.
Proof.
  unfold isDirectory, damagedDir. simpl. by destruct dir.2 as [|[]|].
Qed.

Lemma readdirSync_damagedDir (dir : Dirent) :
  readdirSync (damagedDir plan dir).2
  = (λ files : list Dirent, damagedEntry (plan dir.1) <$> files)
      <$> readdirSync dir.2.
Proof. unfold damagedDir. simpl. by destruct dir.2 as [|[]|]. Qed.

Lemma sidecarsIn_damagedDir (dir : Dirent) :
  sidecarsIn (damagedDir plan dir) = damagedSidecar plan <$> sidecarsIn dir.
Proof.
  unfold sidecarsIn. rewrite readdirSync_damagedDir.
  destruct (readdirSync dir.2) as [files|]; [|done]. simpl.
  rewrite filter_fmap_same by apply isSidecar_damagedEntry.
  by rewrite <-!list_fmap_compose.
Qed.

Lemma projectDirsOf_damage (root : Node) :
  projectDirsOf (damage plan root) = damagedDir plan <$> projectDirsOf root.
Proof.
  unfold projectDirsOf, damage. destruct root as [|[entries|]|]; [done| |done..].
  simpl. by rewrite filter_fmap_same by apply isDirectory_damagedDir.
Qed.

(** The damaged tree has the same sidecars, file for file. *)
Lemma sidecarsOf_damage (root : Node) :
  sidecarsOf (damage plan root) = damagedSidecar plan <$> sidecarsOf root.
Proof.
  unfold sidecarsOf. rewrite projectDirsOf_damage.
  induction (projectDirsOf root) as [|dir dirs IH]; [done|].
  rewrite fmap_cons, !bind_cons, fmap_app, IH.
  by rewrite sidecarsIn_damagedDir.
Qed.

(** Its directories can be listed as before. *)
Lemma listable_damage (root : Node) :
  listable root → listable (damage plan root).
Proof.
  intros [Hroot Hdirs]. split.
  - destruct root as [|[entries|]|]; by destruct Hroot.
  - rewrite projectDirsOf_damage. apply Forall_fmap.
    eapply Forall_impl; [done|]. intros dir [files Hdir]. unfold compose.
    rewrite readdirSync_damagedDir, Hdir. by eexists.
Qed.

Lemma damagedSidecar_Intact (s : string * Dirent) :
  plan s.1 s.2.1 = Intact → damagedSidecar plan s = s.
Proof.
  unfold damagedSidecar, damagedEntry. intros ->.
  by destruct s as [? [? ?]].
Qed.

(** A file that was damaged is a broken sidecar. *)
Lemma damagedSidecar_broken (s : string * Dirent) :
  isFile s.2 = true → plan s.1 s.2.1 ≠ Intact →
  broken (damagedSidecar plan s).2.
Proof.
  unfold damagedSidecar, damagedEntry, broken, isFile. simpl.
  destruct (plan s.1 s.2.1), s.2.2; try done; auto.
Qed.

End DamageFacts.

Section RecordClaims.
Import Js Catalog.
Variable Date_parse : string → option Z.
Variable Date_toString : Z → string.
Variable Number_toString : Z → string.

Local Abbreviation getAllDocs :=
  (Catalog.getAllDocs Date_parse Date_toString Number_toString).
Local Abbreviation docOf := (Catalog.docOf Date_toString Number_toString).
Local Abbreviation docOfSidecar :=
  (Catalog.docOfSidecar Date_toString Number_toString).
Local Abbreviation recordsOf :=
  (Catalog.recordsOf Date_toString Number_toString).
Local Abbreviation comparefn :=
  (Catalog.comparefn Date_parse Date_toString Number_toString).
Local Abbreviation dateOf :=
  (Catalog.dateOf Date_parse Date_toString Number_toString).
Local Abbreviation ToString := (Js.ToString Date_toString Number_toString).

(** C3, on the code: a file named [REPORT.YML] is not selected.  The filter
    compares the end of the name with [.yml] and [.yaml] letter for letter,
    so the run on [upperCase] returns no record, although the expression
    that derives the slug would take the extension off, whatever its case. *)
Theorem C3_upper_case_extension_not_selected :
  isYamlName "REPORT.YML" = false ∧
  sidecarsOf Examples.upperCase = [] ∧
  getAllDocs (Some Examples.upperCase) = Some [] ∧
  matchesYamlExt ".YML" = true ∧
  stripYamlExt "REPORT.YML" = "REPORT".
Proof. by split_and!. Qed.

(** The record of a sidecar once the tree is damaged: the same record when
    the file is left alone, the blank one when it is broken; its date can
    be made whenever it could before. *)
Lemma damaged_record (plan : string → string → Damage) (s : string * Dirent)
    (d : Doc) :
  isFile s.2 = true → docOfSidecar s = Some d →
  ∃ d',
    docOfSidecar (damagedSidecar plan s) = Some d' ∧
    (plan s.1 s.2.1 = Intact → d' = d) ∧
    (broken (damagedSidecar plan s).2 → d' = blankDoc s.1 s.2.1) ∧
    (is_Some (dateOf d) → is_Some (dateOf d')).
Proof.
  intros Hfile Hd.
  destruct (decide (plan s.1 s.2.1 = Intact)) as [Hplan|Hplan].
  - rewrite (damagedSidecar_Intact _ _ Hplan). exists d.
    split_and!; [done..| |done].
    intros [_ Hmeta]%meta_broken.
    pose proof (docOf_blank Date_toString Number_toString s.1 s.2 Hmeta).
    unfold Catalog.docOfSidecar in Hd. congruence.
  - pose proof (damagedSidecar_broken plan s Hfile Hplan) as Hbroken.
    exists (blankDoc s.1 s.2.1). split_and!; [|done|done|by eexists].
    apply meta_broken in Hbroken as [_ Hmeta].
    exact (docOf_blank Date_toString Number_toString _ _ Hmeta).
Qed.

(** C4: a sidecar that cannot be read or is not YAML never makes the
    builder throw and never costs a record.  Take any tree on which the
    builder returns and let any of its files become unreadable or stop
    being YAML: the builder still returns, with as many records; every
    sidecar that is left alone has the record it had, and every broken one
    (broken now or before) has its record too, with the empty mapping for
    metadata. *)
Theorem C4_broken_sidecar_keeps_its_record (plan : string → string → Damage)
    (root : Node) (docs : list Doc) :
  getAllDocs (Some root) = Some docs →
  ∃ docs' records',
    getAllDocs (Some (damage plan root)) = Some docs' ∧
    sidecarsOf (damage plan root) = damagedSidecar plan <$> sidecarsOf root ∧
    recordsOf (damage plan root) = Some records' ∧
    docs' ≡ₚ records' ∧
    length docs' = length docs ∧
    ∀ s, s ∈ sidecarsOf root →
      ∃ d',
        docOfSidecar (damagedSidecar plan s) = Some d' ∧
        d' ∈ docs' ∧
        (plan s.1 s.2.1 = Intact → docOfSidecar s = Some d' ∧ d' ∈ docs) ∧
        (broken (damagedSidecar plan s).2 →
         readYAML (damagedSidecar plan s).2.2 = emptyObject ∧
         d' = blankDoc s.1 s.2.1 ∧
         meta d' = emptyObject).
Proof.
  intros Hdocs.
  pose proof (getAllDocs_inv _ _ _ _ _ Hdocs) as Hroot.
  destruct (getAllDocs_records _ _ _ _ _ Hdocs)
    as (records & Hrecords & Hsort & _ & Hperm).
  assert (∀ s, s ∈ sidecarsOf root → isFile s.2 = true) as Hfiles.
  { intros [project f]. apply sidecar_isFile. }
  assert (∃ records', recordsOf (damage plan root) = Some records')
    as [records' Hrecords'].
  { apply mapM_is_Some_2. rewrite sidecarsOf_damage.
    apply Forall_fmap, Forall_forall. intros s Hs. unfold compose.
    destruct (mapM_elem_of _ _ _ _ Hrecords Hs) as (d & Hd & _).
    destruct (damaged_record plan s d (Hfiles s Hs) Hd) as (d' & -> & _).
    by eexists. }
  assert (length records' = length records) as Hlength.
  { apply length_mapM in Hrecords, Hrecords'.
    rewrite <-Hrecords, <-Hrecords', sidecarsOf_damage. apply length_fmap. }
  assert (∀ s d', s ∈ sidecarsOf root →
                   docOfSidecar (damagedSidecar plan s) = Some d' →
                   d' ∈ records') as Hin'.
  { intros s d' Hs Hd'.
    assert (damagedSidecar plan s ∈ sidecarsOf (damage plan root)) as Hs'.
    { rewrite sidecarsOf_damage. by apply list_elem_of_fmap_2. }
    destruct (mapM_elem_of _ _ _ _ Hrecords' Hs') as (d'' & ? & ?).
    congruence. }
  assert (is_Some (sort comparefn records')) as [docs' Hsort'].
  { destruct (decide (length records' <= 1)%nat) as [Hshort|Hlong].
    { rewrite js_sort_short by done. by eexists. }
    apply (js_sort_fit _ (λ d, is_Some (dateOf d)));
      [apply comparefn_is_Some|].
    assert (Forall (λ d, is_Some (dateOf d)) records) as Hfit.
    { eapply (js_sort_Some_fit comparefn); [apply comparefn_is_Some|done|lia]. }
    rewrite Forall_forall in Hfit. apply Forall_forall. intros d' Hd'.
    destruct (mapM_elem_of_inv _ _ _ _ Hrecords' Hd') as (s' & Hs'd & Hs').
    rewrite sidecarsOf_damage in Hs'.
    apply list_elem_of_fmap in Hs' as (s & -> & Hs).
    destruct (mapM_elem_of _ _ _ _ Hrecords Hs) as (d & Hd & Hdin).
    destruct (damaged_record plan s d (Hfiles s Hs) Hd) as (d'' & ? & _ & _ & Hdate).
    assert (d'' = d') as -> by congruence. by apply Hdate, Hfit. }
  assert (docs' ≡ₚ records') as Hperm'.
  { rewrite (js_sort_Some _ _ _ Hsort'). apply js_sort_Permutation. }
  exists docs', records'. split_and!; [|apply sidecarsOf_damage|done|done| |].
  - rewrite (getAllDocs_listable _ _ _ _ (listable_damage plan _ Hroot)).
    by rewrite Hrecords'.
  - by rewrite Hperm', Hperm.
  - intros s Hs.
    destruct (mapM_elem_of _ _ _ _ Hrecords Hs) as (d & Hd & Hdin).
    destruct (damaged_record plan s d (Hfiles s Hs) Hd)
      as (d' & Hd' & Hintact & Hbroken & _).
    exists d'. split_and!; [done|rewrite Hperm'; by eapply Hin'| |].
    + intros ->%Hintact. by rewrite Hperm.
    + intros Hb. pose proof (Hbroken Hb) as ->.
      by destruct (meta_broken _ Hb) as [-> _].
Qed.

(** C5: the record of a sidecar of the directory [project] has that
    project, the sidecar's name without its YAML extension for slug, the
    sidecar's document for metadata, and the url
    [/docs/{project}/{slug}.{format}], where [format] is the [format]
    field of its metadata. *)
Theorem C5_url_of_record (root : Node) (docs : list Doc) (project : string)
    (f : Dirent) :
  getAllDocs (Some root) = Some docs →
  (project, f) ∈ sidecarsOf root →
  ∃ d,
    docOf project f = Some d ∧
    d ∈ docs ∧
    Catalog.project d = project ∧
    (f.1 = slug d +:+ ".yml" ∨ f.1 = slug d +:+ ".yaml") ∧
    (∀ v, f.2 = File (Loaded v) → ToBoolean v = true → meta d = v) ∧
    (∃ format,
       ToString (get "format" (meta d)) = Some format ∧
       url d = "/docs/" +:+ project +:+ "/" +:+ slug d +:+ "." +:+ format) ∧
    ∀ format, get "format" (meta d) = VString format →
              url d = "/docs/" +:+ project +:+ "/" +:+ slug d +:+ "." +:+ format.
Proof.
  intros Hdocs Hf.
  destruct (sidecar_record _ _ _ _ _ _ _ Hdocs Hf) as (d & Hd & Hin).
  destruct (docOf_Some _ _ _ _ _ Hd)
    as (Hproject & Hslug & Hmeta & format & Hformat & _ & Hurl).
  exists d. split_and!; [done..| | | |].
  - rewrite Hslug. by eapply isYamlName_slug, sidecar_name.
  - intros v Hv Htrue. rewrite Hmeta. by apply meta_loaded.
  - by exists format.
  - intros format' Hformat'. rewrite Hformat' in Hformat. by simplify_eq/=.
Qed.

(** C6: the file name of a record is its slug, a [.] and the [format] the
    sidecar's document gives; a sidecar whose document has no [format], or
    that has no document at all (falsy, unreadable, not YAML), gets a file
    name in [.undefined], and its record is in the output all the same. *)
Theorem C6_filename_of_record (root : Node) (docs : list Doc)
    (project : string) (f : Dirent) :
  getAllDocs (Some root) = Some docs →
  (project, f) ∈ sidecarsOf root →
  ∃ d,
    docOf project f = Some d ∧
    d ∈ docs ∧
    slug d = stripYamlExt f.1 ∧
    (∀ v, f.2 = File (Loaded v) → ToBoolean v = true →
          meta d = v ∧
          (∀ format, get "format" v = VString format →
                     filename d = stripYamlExt f.1 +:+ "." +:+ format) ∧
          (get "format" v = VUndefined →
           filename d = stripYamlExt f.1 +:+ ".undefined")) ∧
    (∀ v, f.2 = File (Loaded v) → ToBoolean v = false →
          meta d = emptyObject ∧
          filename d = stripYamlExt f.1 +:+ ".undefined") ∧
    (broken f →
     meta d = emptyObject ∧ filename d = stripYamlExt f.1 +:+ ".undefined") ∧
    ∃ format,
      ToString (get "format" (meta d)) = Some format ∧
      filename d = slug d +:+ "." +:+ format.
Proof.
  intros Hdocs Hf.
  destruct (sidecar_record _ _ _ _ _ _ _ Hdocs Hf) as (d & Hd & Hin).
  destruct (docOf_Some _ _ _ _ _ Hd)
    as (_ & Hslug & Hmeta & format & Hformat & Hname & _).
  assert (meta d = emptyObject →
          filename d = stripYamlExt f.1 +:+ ".undefined") as Hblank.
  { intros Hempty. rewrite Hempty in Hformat. simpl in Hformat.
    simplify_eq. by rewrite Hname, Hslug. }
  exists d. split_and!; [done..| | | |by exists format].
  - intros v Hv Htrue.
    assert (meta d = v) as Hv' by (rewrite Hmeta; by apply meta_loaded).
    rewrite Hv' in Hformat. split_and!; [done| |].
    + intros format' Hformat'. rewrite Hformat' in Hformat.
      simplify_eq/=. by rewrite Hname, Hslug.
    + intros Hformat'. rewrite Hformat' in Hformat.
      simplify_eq/=. by rewrite Hname, Hslug.
  - intros v Hv Hfalse.
    assert (meta d = emptyObject) by (rewrite Hmeta; by eapply meta_falsy).
    auto.
  - intros [_ Hb]%meta_broken. rewrite <-Hmeta in Hb. auto.
Qed.

(** C7: with nothing at [./public/docs], or with an empty directory there,
    the builder returns the empty sequence; it does not throw. *)
Theorem C7_missing_or_empty_root :
  getAllDocs None = Some [] ∧
  getAllDocs (Some (Directory (Some []))) = Some [].
Proof. by split. Qed.

(** C8 (amended): every record has a project and a slug; the project is the
    name of a directory of the root, hence not empty; the slug is the name
    of the sidecar without its YAML extension, and it is empty exactly when
    that name is [.yml] or [.yaml]. *)
Theorem C8_project_and_slug (root : Node) (docs : list Doc) (d : Doc) :
  getAllDocs (Some root) = Some docs →
  namedEntries root →
  d ∈ docs →
  ∃ project f,
    (project, f) ∈ sidecarsOf root ∧
    Catalog.project d = project ∧ project ≠ EmptyString ∧
    slug d = stripYamlExt f.1 ∧
    (f.1 = slug d +:+ ".yml" ∨ f.1 = slug d +:+ ".yaml") ∧
    (slug d = EmptyString ↔ f.1 = ".yml" ∨ f.1 = ".yaml").
Proof.
  intros Hdocs Hnamed Hd.
  destruct (record_sidecar _ _ _ _ _ _ Hdocs Hd) as (project & f & Hf & Hdoc).
  destruct (docOf_Some _ _ _ _ _ Hdoc) as (Hproject & Hslug & _).
  exists project, f. pose proof (sidecar_name _ _ _ Hf) as Hname.
  rewrite Hslug.
  split_and!; [done|done| |done|by apply isYamlName_slug|by apply slug_empty_iff].
  apply elem_of_sidecarsOf in Hf as (dir & Hdir & _ & <- & _).
  unfold namedEntries in Hnamed. rewrite Forall_forall in Hnamed.
  by apply Hnamed.
Qed.

End RecordClaims.

Section RecordExamples.
Import Js Catalog Examples.

Local Abbreviation getAllDocs :=
  (Catalog.getAllDocs Date_parse Date_toString Number_toString).
Local Abbreviation docOf := (Catalog.docOf Date_toString Number_toString).
Local Abbreviation docOfSidecar :=
  (Catalog.docOfSidecar Date_toString Number_toString).
Local Abbreviation recordsOf :=
  (Catalog.recordsOf Date_toString Number_toString).
Local Abbreviation ToString := (Js.ToString Date_toString Number_toString).

(** The sidecars of [mixed], in the order the builder meets them: the
    nested directory, the pdf and the file of the root are not among them. *)
Lemma sidecarsOf_mixed :
  sidecarsOf mixed
  = [("projectA", notes_yml);
     ("projectA", ("broken.yml", File InvalidYaml));
     ("projectA", intro_yml);
     ("projectA", ("locked.yaml", File Unreadable));
     ("projectA", update_yaml)].
Proof. reflexivity. Qed.

(** A format that no string can be made of makes the builder throw,
    whatever the other sidecars are. *)
Lemma evilFormat_throws :
  listable evilFormat ∧
  ToString ownToString = None ∧
  getAllDocs (Some evilFormat) = None.
Proof.
  split_and!; [|done..]. split; [by eexists|].
  repeat constructor. by eexists.
Qed.

(** A date that no string can be made of makes it throw when there are two
    records to compare, and goes unnoticed in a catalog of one. *)
Lemma evilDate_throws :
  getAllDocs (Some evilDateAlone) = Some [odd_doc] ∧
  getAllDocs (Some evilDate) = None.
Proof. by split. Qed.

(** C4 on [mixed], where [broken.yml] is not YAML and [locked.yaml] cannot
    be read, when [update.yaml] becomes unreadable too: the builder
    returns five records as before, the blank one for [update.yaml]. *)
Lemma C4_witness_mixed :
  getAllDocs (Some mixed)
  = Some [update_doc; intro_doc; notes_doc; broken_doc; locked_doc] ∧
  getAllDocs (Some (damage loseUpdate mixed))
  = Some [intro_doc; notes_doc; broken_doc; locked_doc;
          blankDoc "projectA" "update.yaml"] ∧
  ∃ docs' records',
    getAllDocs (Some (damage loseUpdate mixed)) = Some docs' ∧
    sidecarsOf (damage loseUpdate mixed)
    = damagedSidecar loseUpdate <$> sidecarsOf mixed ∧
    recordsOf (damage loseUpdate mixed) = Some records' ∧
    docs' ≡ₚ records' ∧
    length docs' = 5%nat ∧
    ∀ s, s ∈ sidecarsOf mixed →
      ∃ d',
        docOfSidecar (damagedSidecar loseUpdate s) = Some d' ∧
        d' ∈ docs' ∧
        (loseUpdate s.1 s.2.1 = Intact →
         docOfSidecar s = Some d' ∧
         d' ∈ [update_doc; intro_doc; notes_doc; broken_doc; locked_doc]) ∧
        (broken (damagedSidecar loseUpdate s).2 →
         readYAML (damagedSidecar loseUpdate s).2.2 = emptyObject ∧
         d' = blankDoc s.1 s.2.1 ∧
         meta d' = emptyObject).
Proof.
  split; [exact mixed_output|]. split; [reflexivity|].
  exact (C4_broken_sidecar_keeps_its_record Date_parse Date_toString
           Number_toString loseUpdate mixed _ mixed_output).
Defined.

(** C5 on [update.yaml] of the scenario. *)
Lemma C5_witness_scenario :
  ("projectA", update_yaml) ∈ sidecarsOf scenario ∧
  ∃ d,
    docOf "projectA" update_yaml = Some d ∧
    d ∈ [update_doc; intro_doc] ∧
    url d = "/docs/projectA/update.docx".
Proof.
  assert (("projectA", update_yaml) ∈ sidecarsOf scenario) as Hf.
  { cbn. rewrite !elem_of_cons. auto. }
  split; [exact Hf|].
  destruct (C5_url_of_record Date_parse Date_toString Number_toString
              scenario _ "projectA" update_yaml scenario_output Hf)
    as (d & Hd & Hin & _ & _ & Hmeta & _ & Hurl).
  exists d. split_and!; [exact Hd|exact Hin|].
  assert (get "format" (meta d) = VString "docx") as Hformat.
  { by rewrite (Hmeta _ eq_refl eq_refl). }
  assert (Some update_doc = Some d) as [= <-] by exact Hd.
  exact (Hurl "docx" Hformat).
Defined.

(** C6 on two sidecars of [mixed]: [intro.yml], whose document says
    [format: pdf], and [broken.yml], which has no document. *)
Lemma C6_witness_mixed :
  ("projectA", intro_yml) ∈ sidecarsOf mixed ∧
  ("projectA", ("broken.yml", File InvalidYaml)) ∈ sidecarsOf mixed ∧
  (∃ d, docOf "projectA" intro_yml = Some d ∧
        d ∈ [update_doc; intro_doc; notes_doc; broken_doc; locked_doc] ∧
        filename d = "intro.pdf") ∧
  (∃ d, docOf "projectA" ("broken.yml", File InvalidYaml) = Some d ∧
        d ∈ [update_doc; intro_doc; notes_doc; broken_doc; locked_doc] ∧
        filename d = "broken.undefined").
Proof.
  assert (("projectA", intro_yml) ∈ sidecarsOf mixed) as Hintro.
  { rewrite sidecarsOf_mixed, !elem_of_cons. auto. }
  assert (("projectA", ("broken.yml", File InvalidYaml)) ∈ sidecarsOf mixed)
    as Hbroken.
  { rewrite sidecarsOf_mixed, !elem_of_cons. auto. }
  split_and!; [exact Hintro|exact Hbroken| |].
  - destruct (C6_filename_of_record Date_parse Date_toString Number_toString
                mixed _ "projectA" intro_yml mixed_output Hintro)
      as (d & Hd & Hin & _ & Hloaded & _).
    exists d. split_and!; [exact Hd|exact Hin|].
    exact (proj1 (proj2 (Hloaded _ eq_refl eq_refl)) "pdf" eq_refl).
  - destruct (C6_filename_of_record Date_parse Date_toString Number_toString
                mixed _ "projectA" ("broken.yml", File InvalidYaml)
                mixed_output Hbroken)
      as (d & Hd & Hin & _ & _ & _ & Hb & _).
    exists d. split_and!; [exact Hd|exact Hin|].
    exact (proj2 (Hb (or_intror eq_refl))).
Defined.

(** C8, as stated, fails: the sidecar [.yml] of [projectA] gives a record
    whose slug is the empty string. *)
Lemma C8_counterexample_bare_extension :
  ∃ d,
    getAllDocs (Some bareExtension) = Some [d] ∧
    project d = "projectA" ∧
    slug d = EmptyString ∧
    filename d = ".pdf" ∧
    url d = "/docs/projectA/.pdf".
Proof. eexists. by split_and!. Qed.

(** C8 (amended) on [intro.yml] of the scenario. *)
Lemma C8_witness_scenario :
  ∃ docs d,
    getAllDocs (Some scenario) = Some docs ∧
    namedEntries scenario ∧
    d ∈ docs ∧
    ∃ project f,
      (project, f) ∈ sidecarsOf scenario ∧
      Catalog.project d = project ∧ project ≠ EmptyString ∧
      slug d = stripYamlExt f.1 ∧
      (f.1 = slug d +:+ ".yml" ∨ f.1 = slug d +:+ ".yaml") ∧
      (slug d = EmptyString ↔ f.1 = ".yml" ∨ f.1 = ".yaml").
Proof.
  exists [update_doc; intro_doc], intro_doc.
  assert (namedEntries scenario) as Hnamed.
  { repeat constructor. discriminate. }
  assert (intro_doc ∈ [update_doc; intro_doc]) as Hd.
  { rewrite !elem_of_cons. auto. }
  split_and!; [reflexivity|exact Hnamed|exact Hd|].
  exact (C8_project_and_slug Date_parse Date_toString Number_toString
           scenario _ _ scenario_output Hnamed Hd).
Defined.

End RecordExamples.

(** * Further properties of the code *)

(** ** The slug expression *)

Section SlugProperties.
Import Str Js Catalog.

Lemma stripYamlExt_unfold (name : string) :
  stripYamlExt name
  = if matchesYamlExt name then EmptyString
    else match name with
         | EmptyString => EmptyString
         | String c rest => String c (stripYamlExt rest)
         end.
Proof. by destruct name. Qed.

Lemma matchesYamlExt_lower (e : string) :
  matchesYamlExt e = true → toLowerCase e = ".yml" ∨ toLowerCase e = ".yaml".
Proof.
  unfold matchesYamlExt.
  intros [H|H]%orb_true_iff; apply String.eqb_eq in H; auto.
Qed.

Lemma matchesYamlExt_before (d : ascii) (base e : string) :
  matchesYamlExt e = true → matchesYamlExt (String d (base +:+ e)) = false.
Proof.
  intros He. destruct (matchesYamlExt (String _ _)) eqn:Hm; [exfalso|done].
  pose proof (matchesYamlExt_length _ He) as Hlen.
  pose proof (matchesYamlExt_length _ Hm) as Hlen'.
  cbn [String.length] in Hlen'. rewrite string_app_length in Hlen'.
  destruct base as [|c base]; [|simpl in Hlen'; lia].
  rewrite string_app_nil_l in Hm. simpl in Hlen'.
  apply matchesYamlExt_lower in He, Hm. cbn [toLowerCase] in Hm.
  destruct Hm as [Hm|Hm]; [apply (f_equal String.length) in Hm|];
    destruct He as [He|He]; rewrite ?He in Hm;
    try (apply (f_equal String.length) in He;
         rewrite toLowerCase_length in He; simpl in *; lia).
  all: try (rewrite toLowerCase_length in Hm; simpl in Hm; lia).
  all: by simplify_eq.
Qed.

(** X1. The expression that derives the slug takes a final [.yml] or [.yaml]
    off, in any mix of upper and lower case, and nothing more: what stands
    before it comes back unchanged, even when it ends in an extension
    itself. *)
Theorem stripYamlExt_any_case (base e : string) :
  matchesYamlExt e = true → stripYamlExt (base +:+ e) = base.
Proof.
  intros He. induction base as [|d base IH].
  - rewrite string_app_nil_l, stripYamlExt_unfold. by rewrite He.
  - rewrite string_app_cons, stripYamlExt_unfold.
    by rewrite (matchesYamlExt_before _ _ _ He), IH.
Qed.

Lemma stripYamlExt_any_case_witness :
  matchesYamlExt ".YAML" = true ∧
  stripYamlExt ("notes.yml" +:+ ".YAML") = "notes.yml".
Proof.
  split; [reflexivity|].
  exact (stripYamlExt_any_case "notes.yml" ".YAML" eq_refl).
Defined.

Lemma endsWith_tail (c : ascii) (s suffix : string) :
  endsWith (String c s) suffix = false → endsWith s suffix = false.
Proof. cbn [endsWith]. by destruct (String.eqb _ _). Qed.

(** X2. A name that does not end in [.yml] or [.yaml], whatever the case,
    is its own slug: the expression changes nothing else. *)
Theorem stripYamlExt_other_names (name : string) :
  endsWith (toLowerCase name) ".yml" = false →
  endsWith (toLowerCase name) ".yaml" = false →
  stripYamlExt name = name.
Proof.
  induction name as [|c name IH]; [done|]. intros Hyml Hyaml.
  rewrite stripYamlExt_unfold.
  destruct (matchesYamlExt (String c name)) eqn:Hm.
  - apply matchesYamlExt_lower in Hm as [Hm|Hm]; rewrite Hm in *; done.
  - cbn [toLowerCase] in *. f_equal. apply IH; by eapply endsWith_tail.
Qed.

Lemma stripYamlExt_other_names_witness :
  endsWith (toLowerCase "report.yml.bak") ".yml" = false ∧
  endsWith (toLowerCase "report.yml.bak") ".yaml" = false ∧
  stripYamlExt "report.yml.bak" = "report.yml.bak".
Proof.
  split_and!; [reflexivity..|].
  exact (stripYamlExt_other_names "report.yml.bak" eq_refl eq_refl).
Defined.

(** X3. The record does not keep the sidecar's extension: [base.yml] and
    [base.yaml] with the same content give the same record, field for
    field, so two such files of one project cannot be told apart in the
    catalog. *)
Theorem twin_sidecars_same_record (toString numberToString : Z → string)
    (project base : string) (content : Node) :
  docOf toString numberToString project (base +:+ ".yml", content)
  = docOf toString numberToString project (base +:+ ".yaml", content)
  ∧ (∀ d, docOf toString numberToString project (base +:+ ".yml", content)
          = Some d → slug d = base)
  ∧ isYamlName (base +:+ ".yml") = true
  ∧ isYamlName (base +:+ ".yaml") = true.
Proof.
  split_and!.
  - unfold docOf. cbn [fst snd]. by rewrite stripYamlExt_yml, stripYamlExt_yaml.
  - intros d (_ & -> & _)%docOf_Some. apply stripYamlExt_yml.
  - unfold isYamlName. apply orb_true_iff. left.
    apply endsWith_app. by exists base.
  - unfold isYamlName. apply orb_true_iff. right.
    apply endsWith_app. by exists base.
Qed.

End SlugProperties.

(** ** The scan and the order *)

Section CatalogProperties.
Import Js Catalog.
Variable Date_parse : string → option Z.
Variable Date_toString : Z → string.
Variable Number_toString : Z → string.

Local Abbreviation getAllDocs :=
  (Catalog.getAllDocs Date_parse Date_toString Number_toString).
Local Abbreviation docOf := (Catalog.docOf Date_toString Number_toString).
Local Abbreviation docOfSidecar :=
  (Catalog.docOfSidecar Date_toString Number_toString).
Local Abbreviation recordsOf :=
  (Catalog.recordsOf Date_toString Number_toString).
Local Abbreviation comparefn :=
  (Catalog.comparefn Date_parse Date_toString Number_toString).
Local Abbreviation order :=
  (Catalog.order Date_parse Date_toString Number_toString).
Local Abbreviation dateOf :=
  (Catalog.dateOf Date_parse Date_toString Number_toString).
Local Abbreviation sortDate :=
  (Catalog.sortDate Date_parse Date_toString Number_toString).
Local Abbreviation timeOf :=
  (Catalog.timeOf Date_parse Date_toString Number_toString).
Local Abbreviation ToString := (Js.ToString Date_toString Number_toString).
Local Abbreviation newDate :=
  (Js.newDate Date_parse Date_toString Number_toString).

(** X4. The records of the output are those of the regular files that lie
    directly in a directory lying directly in the root and whose name ends
    in [.yml] or [.yaml]: nothing of the root itself, nothing nested
    deeper, no directory with a YAML name. *)
Theorem records_of_immediate_files (root : Node) (docs : list Doc) (d : Doc) :
  getAllDocs (Some root) = Some docs →
  d ∈ docs ↔
  ∃ dir f,
    dir ∈ default [] (readdirSync root) ∧ isDirectory dir = true ∧
    f ∈ default [] (readdirSync dir.2) ∧ isFile f = true ∧
    (∃ base, f.1 = base +:+ ".yml" ∨ f.1 = base +:+ ".yaml") ∧
    docOf dir.1 f = Some d.
Proof.
  intros Hdocs. split.
  - intros (project & f & Hf & Hd)%(record_sidecar _ _ _ _ _ _ Hdocs).
    apply elem_of_sidecarsOf in Hf as (dir & Hdir & ? & <- & Hf & Hside).
    apply isSidecar_iff in Hside as [? ?]. by exists dir, f.
  - intros (dir & f & Hdir & ? & Hf & ? & Hname & Hd).
    destruct (sidecar_record _ _ _ root docs dir.1 f Hdocs) as (d' & ? & ?).
    + apply elem_of_sidecarsOf.
      exists dir. split_and!; [done..|]. by apply isSidecar_iff.
    + congruence.
Qed.





#[local] Instance listable_dec (root : Node) : Decision (listable root).
Proof. unfold listable. apply _. Defined.


(** The records of two listings of the same sidecars. *)
Lemma mapM_omap {A B : Type} (f : A → option B) (l : list A) (k : list B) :
  mapM f l = Some k → k = omap f l.
Proof.
  revert k. induction l as [|x l IH]; intros k; [by intros [= <-]|].
  rewrite mapM_cons. destruct (f x) as [y|] eqn:Hy; [|done]. simpl.
  destruct (mapM f l) as [k'|]; [|done]. simpl. intros [= <-].
  csimpl. rewrite Hy. f_equal. by apply IH.
Qed.

(** X6. When the dates are valid and no two records have the same one, the
    output does not depend on the order in which the directories were
    listed: two trees with the same sidecars give the same sequence. *)
Theorem output_independent_of_listing_order (root root' : Node)
    (docs docs' : list Doc) :
  getAllDocs (Some root) = Some docs →
  getAllDocs (Some root') = Some docs' →
  sidecarsOf root ≡ₚ sidecarsOf root' →
  (∀ d, d ∈ docs → is_Some (sortDate d)) →
  (∀ a b, a ∈ docs → b ∈ docs → timeOf a = timeOf b → a = b) →
  docs = docs'.
Proof.
  intros Hdocs Hdocs' Hsame Hvalid Hdistinct.
  assert (docs ≡ₚ docs') as Hperm.
  { destruct (getAllDocs_records _ _ _ _ _ Hdocs) as (k & Hk & _ & _ & ->).
    destruct (getAllDocs_records _ _ _ _ _ Hdocs') as (k' & Hk' & _ & _ & ->).
    rewrite (mapM_omap _ _ _ Hk), (mapM_omap _ _ _ Hk'). by rewrite Hsame. }
  assert (∀ d, d ∈ docs' → is_Some (sortDate d)) as Hvalid'.
  { intros d Hd. apply Hvalid. by rewrite Hperm. }
  eapply (StronglySorted_unique_strong (λ a b, timeOf b <= timeOf a));
    [|by eapply getAllDocs_StronglySorted..|done].
  intros a b Ha Hb ??. apply Hdistinct; [done|by rewrite Hperm|lia].
Qed.

(** X7. The sort is stable on the catalog: with valid dates, the records
    that share a date (the undated ones among them, at the epoch) stand in
    the output in the order the scan met their sidecars. *)
Theorem same_date_keeps_listing_order (root : Node) (docs : list Doc) (t : Z) :
  getAllDocs (Some root) = Some docs →
  (∀ d, d ∈ docs → is_Some (sortDate d)) →
  ∃ records,
    recordsOf root = Some records ∧
    List.filter (λ d, Z.eqb (timeOf d) t) docs
    = List.filter (λ d, Z.eqb (timeOf d) t) records.
Proof.
  intros Hdocs Hvalid.
  destruct (getAllDocs_records _ _ _ _ _ Hdocs)
    as (records & Hrecords & _ & -> & Hperm).
  exists records. split; [done|].
  apply js_sort_stable. intros a b Ha Hb Hta Htb.
  rewrite order_valid by (apply Hvalid; by rewrite Hperm).
  apply Z.eqb_eq in Hta, Htb. lia.
Qed.

(** X8. Between records with valid dates the comparator is a consistent
    one, as the sort needs it: it returns the difference of the two times,
    so swapping its arguments changes its sign, and it is transitive both
    as an order and as an equality. *)
Theorem comparefn_consistent (a b c : Doc) :
  is_Some (sortDate a) → is_Some (sortDate b) → is_Some (sortDate c) →
  ∃ ab bc ac,
    comparefn a b = Some ab ∧ comparefn b c = Some bc ∧
    comparefn a c = Some ac ∧
    comparefn b a = Some (- ab) ∧
    (ab <= 0 → bc <= 0 → ac <= 0) ∧
    (ab = 0 → bc = 0 → ac = 0) ∧
    (ab < 0 ↔ timeOf b < timeOf a).
Proof.
  intros Ha Hb Hc. eexists _, _, _.
  rewrite !comparefn_valid by done.
  split_and!; try reflexivity; [f_equal; lia|lia..].
Qed.

(** X9. One invalid date is enough to make the comparator inconsistent: it
    ties the record with every other one, also with two that it orders
    strictly, so the order of the output is then left to the engine. *)
Theorem comparefn_inconsistent (a b c : Doc) :
  dateOf b = Some None →
  is_Some (sortDate a) → is_Some (sortDate c) → timeOf a ≠ timeOf c →
  comparefn a b = Some 0 ∧ comparefn b c = Some 0 ∧
  ∃ ac, comparefn a c = Some ac ∧ ac ≠ 0.
Proof.
  intros Hb Ha Hc Hne. rewrite (comparefn_valid _ _ _ a c) by done.
  destruct Ha as [ta Ha%sortDate_Some], Hc as [tc Hc%sortDate_Some].
  unfold Catalog.comparefn, byDate. rewrite Ha, Hb, Hc. simpl.
  split_and!; [done..|]. eexists. split; [done|]. lia.
Qed.

(** X10. A sidecar whose document is not a mapping (a string, a number, a
    list, a timestamp) is taken as it is: the record carries that value as
    metadata, has no format, hence a file name in [.undefined], and no
    date, hence the epoch. *)
Theorem non_mapping_document (project name : string) (v : Value) :
  ToBoolean v = true →
  (∀ props, v ≠ VObject props) →
  ∃ d,
    docOf project (name, File (Loaded v)) = Some d ∧
    meta d = v ∧
    filename d = stripYamlExt name +:+ ".undefined" ∧
    url d = "/docs/" +:+ project +:+ "/" +:+ stripYamlExt name +:+ ".undefined" ∧
    sortDate d = Some 0.
Proof.
  intros Htrue Hobj.
  assert (or (readYAML (File (Loaded v))) emptyObject = v) as Hmeta.
  { by apply meta_loaded. }
  assert (∀ key, get key v = VUndefined) as Hget.
  { intros key. destruct v; try done. by destruct (Hobj props). }
  eexists. split.
  { unfold Catalog.docOf. cbn [fst snd]. rewrite Hmeta, Hget. done. }
  cbn [meta filename url]. split_and!; [done|by rewrite string_app_assoc..|].
  unfold Catalog.sortDate, Catalog.dateOf. cbn [meta]. by rewrite Hget.
Qed.

(** X11. A document that loads to a falsy value (an empty file, [null],
    [0], [false], the empty string) gives the record of a sidecar that
    could not be read at all: the blank one. *)
Theorem falsy_document_as_unreadable (project name : string) (v : Value) :
  ToBoolean v = false →
  docOf project (name, File (Loaded v)) = docOf project (name, File Unreadable)
  ∧ docOf project (name, File (Loaded v)) = Some (blankDoc project name).
Proof.
  intros Hfalse.
  rewrite (docOf_blank _ _ project (name, File (Loaded v)))
    by (by eapply meta_falsy).
  by rewrite (docOf_blank _ _ project (name, File Unreadable)).
Qed.

End CatalogProperties.


Section CatalogPropertyExamples.
Import Js Catalog Examples MoreExamples.

Local Abbreviation getAllDocs :=
  (Catalog.getAllDocs Date_parse Date_toString Number_toString).
Local Abbreviation docOf := (Catalog.docOf Date_toString Number_toString).
Local Abbreviation recordsOf :=
  (Catalog.recordsOf Date_toString Number_toString).
Local Abbreviation comparefn :=
  (Catalog.comparefn Date_parse Date_toString Number_toString).
Local Abbreviation dateOf :=
  (Catalog.dateOf Date_parse Date_toString Number_toString).
Local Abbreviation sortDate :=
  (Catalog.sortDate Date_parse Date_toString Number_toString).
Local Abbreviation timeOf :=
  (Catalog.timeOf Date_parse Date_toString Number_toString).

(** X4 on [intro.yml] of the scenario. *)
Lemma records_of_immediate_files_witness :
  getAllDocs (Some scenario) = Some [update_doc; intro_doc] ∧
  (intro_doc ∈ [update_doc; intro_doc] ↔
   ∃ dir f,
     dir ∈ default [] (readdirSync scenario) ∧ isDirectory dir = true ∧
     f ∈ default [] (readdirSync dir.2) ∧ isFile f = true ∧
     (∃ base, f.1 = base +:+ ".yml" ∨ f.1 = base +:+ ".yaml") ∧
     docOf dir.1 f = Some intro_doc).
Proof.
  split; [reflexivity|].
  exact (records_of_immediate_files Date_parse Date_toString Number_toString
           scenario _ intro_doc eq_refl).
Defined.

(** X6 on the scenario and the scenario listed the other way round. *)
Lemma output_independent_of_listing_order_witness :
  sidecarsOf scenario ≡ₚ sidecarsOf scenarioReversed ∧
  getAllDocs (Some scenario) = Some [update_doc; intro_doc] ∧
  getAllDocs (Some scenarioReversed) = Some [update_doc; intro_doc].
Proof.
  assert (sidecarsOf scenario ≡ₚ sidecarsOf scenarioReversed) as Hsame.
  { apply Permutation_swap. }
  assert (∀ a b, a ∈ [update_doc; intro_doc] → b ∈ [update_doc; intro_doc] →
                 timeOf a = timeOf b → a = b) as Hdistinct.
  { intros a b Ha Hb. apply list_elem_of_In in Ha, Hb.
    destruct Ha as [<-|[<-|[]]], Hb as [<-|[<-|[]]];
      first [reflexivity|discriminate]. }
  assert (getAllDocs (Some scenarioReversed)
          = Some (default [] (getAllDocs (Some scenarioReversed)))) as Hrev.
  { reflexivity. }
  split_and!; [exact Hsame|reflexivity|].
  exact (eq_trans Hrev (f_equal Some (eq_sym
           (output_independent_of_listing_order Date_parse Date_toString
              Number_toString scenario scenarioReversed _ _ eq_refl Hrev Hsame
              scenario_dates_valid Hdistinct)))).
Defined.

(** X7 on [mixed]: the three undated records, in listing order. *)
Lemma same_date_keeps_listing_order_witness :
  getAllDocs (Some mixed)
  = Some [update_doc; intro_doc; notes_doc; broken_doc; locked_doc] ∧
  recordsOf mixed
  = Some [notes_doc; broken_doc; intro_doc; locked_doc; update_doc] ∧
  ∃ records,
    recordsOf mixed = Some records ∧
    List.filter (λ d, Z.eqb (timeOf d) 0)
      [update_doc; intro_doc; notes_doc; broken_doc; locked_doc]
    = List.filter (λ d, Z.eqb (timeOf d) 0) records.
Proof.
  split_and!; [reflexivity..|].
  exact (same_date_keeps_listing_order Date_parse Date_toString
           Number_toString mixed _ 0 eq_refl mixed_dates_valid).
Defined.

(** X8 on three records of [mixed]. *)
Lemma comparefn_consistent_witness :
  ∃ ab bc ac,
    comparefn update_doc intro_doc = Some ab ∧
    comparefn intro_doc notes_doc = Some bc ∧
    comparefn update_doc notes_doc = Some ac ∧
    comparefn intro_doc update_doc = Some (- ab) ∧
    (ab <= 0 → bc <= 0 → ac <= 0) ∧
    (ab = 0 → bc = 0 → ac = 0) ∧
    (ab < 0 ↔ timeOf intro_doc < timeOf update_doc).
Proof.
  exact (comparefn_consistent Date_parse Date_toString Number_toString
           update_doc intro_doc notes_doc
           (ex_intro _ _ eq_refl) (ex_intro _ _ eq_refl) (ex_intro _ _ eq_refl)).
Defined.

(** X9 on [far.yml], whose date is no time value. *)
Lemma comparefn_inconsistent_witness :
  dateOf far_doc = Some None ∧
  comparefn intro_doc far_doc = Some 0 ∧
  comparefn far_doc update_doc = Some 0 ∧
  ∃ ac, comparefn intro_doc update_doc = Some ac ∧ ac ≠ 0.
Proof.
  split; [reflexivity|].
  apply (comparefn_inconsistent Date_parse Date_toString Number_toString
           intro_doc far_doc update_doc
           eq_refl (ex_intro _ _ eq_refl) (ex_intro _ _ eq_refl)).
  discriminate.
Defined.

(** X10 on a sidecar that holds a list. *)
Lemma non_mapping_document_witness :
  ∃ d,
    docOf "projectA" ("list.yml", File (Loaded (VArray [VString "a"])))
    = Some d ∧
    meta d = VArray [VString "a"] ∧
    filename d = stripYamlExt "list.yml" +:+ ".undefined" ∧
    url d = "/docs/" +:+ "projectA" +:+ "/" +:+ stripYamlExt "list.yml"
            +:+ ".undefined" ∧
    sortDate d = Some 0.
Proof.
  apply (non_mapping_document Date_parse Date_toString Number_toString
           "projectA" "list.yml" (VArray [VString "a"]) eq_refl).
  discriminate.
Defined.

(** X11 on an empty file, which loads to [undefined]. *)
Lemma falsy_document_as_unreadable_witness :
  docOf "projectA" ("empty.yml", File (Loaded VUndefined))
  = docOf "projectA" ("empty.yml", File Unreadable)
  ∧ docOf "projectA" ("empty.yml", File (Loaded VUndefined))
    = Some (blankDoc "projectA" "empty.yml").
Proof.
  exact (falsy_document_as_unreadable Date_toString Number_toString
           "projectA" "empty.yml" VUndefined eq_refl).
Defined.

End CatalogPropertyExamples.

(** ** The extension the icon is chosen by *)

Section IconProperties.
Import Str Icon.

Lemma lower_ascii_idem (c : ascii) : lower_ascii (lower_ascii c) = lower_ascii c.
Proof. by destruct c as [[] [] [] [] [] [] [] []]. Qed.

Lemma lower_ascii_dot (c : ascii) :
  Ascii.eqb (lower_ascii c) "." = Ascii.eqb c ".".
Proof. by destruct c as [[] [] [] [] [] [] [] []]. Qed.

Lemma toLowerCase_idem (s : string) : toLowerCase (toLowerCase s) = toLowerCase s.
Proof.
  induction s as [|c s IH]; [done|]. cbn [toLowerCase].
  by rewrite lower_ascii_idem, IH.
Qed.

Lemma contains_dot_lower (s : string) :
  contains "." (toLowerCase s) = contains "." s.
Proof.
  induction s as [|c s IH]; [done|]. cbn [toLowerCase contains].
  by rewrite lower_ascii_dot, IH.
Qed.

Lemma afterLast_dot_lower (s : string) :
  afterLast "." (toLowerCase s) = toLowerCase <$> afterLast "." s.
Proof.
  induction s as [|c s IH]; [done|]. cbn [toLowerCase afterLast].
  rewrite IH, lower_ascii_dot.
  destruct (afterLast "." s); [done|]. by destruct (Ascii.eqb c ".").
Qed.

Lemma afterLast_None (c : ascii) (s : string) :
  afterLast c s = None → contains c s = false.
Proof.
  induction s as [|d s IH]; [done|]. cbn [afterLast contains].
  destruct (afterLast c s); [done|]. destruct (Ascii.eqb d c); [done|].
  intros _. by apply IH.
Qed.

Lemma afterLast_Some (c : ascii) (s e : string) :
  afterLast c s = Some e → contains c e = false.
Proof.
  induction s as [|d s IH]; [done|]. cbn [afterLast].
  destruct (afterLast c s) as [e'|] eqn:Hs.
  - intros [= <-]. by apply IH.
  - destruct (Ascii.eqb d c); [|done]. intros [= <-]. by apply afterLast_None.
Qed.

Lemma afterLast_app (c : ascii) (prefix e : string) :
  contains c e = false → afterLast c (prefix +:+ String c e) = Some e.
Proof.
  intros He. induction prefix as [|d prefix IH].
  - rewrite string_app_nil_l. cbn [afterLast].
    by rewrite (afterLast_contains _ _ He), Ascii.eqb_refl.
  - rewrite string_app_cons. cbn [afterLast]. by rewrite IH.
Qed.

(** X12. The lookup does not see the case of the file name: two names that
    differ in case only get the same icon. *)
Theorem FileIcon_ignores_case (s s' : string) (c c' : option string)
    (z z' : option SizeProp) :
  toLowerCase s = toLowerCase s' →
  component (FileIcon {| filename := Name s; className := c; size := z |})
  = component (FileIcon {| filename := Name s'; className := c'; size := z' |}).
Proof.
  intros Hs. cbn [FileIcon component filename]. f_equal.
  assert (∀ n, ext (Name n) = ext (Name (toLowerCase n))) as Hlower.
  { intros n. rewrite !ext_Name, afterLast_dot_lower.
    destruct (afterLast "." n); simpl; by rewrite toLowerCase_idem. }
  by rewrite (Hlower s), (Hlower s'), Hs.
Qed.

Lemma FileIcon_ignores_case_witness :
  toLowerCase "Budget.XLSX" = toLowerCase "BUDGET.xlsx" ∧
  component (FileIcon (props (Name "Budget.XLSX")))
  = component (FileIcon (props (Name "BUDGET.xlsx"))).
Proof.
  split; [reflexivity|].
  exact (FileIcon_ignores_case "Budget.XLSX" "BUDGET.xlsx" None None None None
           eq_refl).
Defined.

(** X13. Only what follows the last [.] counts: whatever stands before it
    (other extensions, nothing at all as in [.pdf]), the icon of
    [prefix.e] is the icon of the extension [e]; a name that ends in [.]
    gets the generic icon. *)
Theorem FileIcon_last_extension_only (prefix e : string) (c : option string)
    (z : option SizeProp) :
  contains "." e = false →
  ext (Name (prefix +:+ "." +:+ e)) = toLowerCase e ∧
  component (FileIcon {| filename := Name (prefix +:+ "." +:+ e);
                         className := c; size := z |})
  = switch (toLowerCase e) ∧
  component (FileIcon {| filename := Name (prefix +:+ ".");
                         className := c; size := z |})
  = FaFileAlt.
Proof.
  intros He. cbn [FileIcon component filename]. rewrite !ext_Name.
  change ("." +:+ e) with (String "." e).
  rewrite (afterLast_app "." prefix e He), (afterLast_app "." prefix "" eq_refl).
  done.
Qed.

Lemma FileIcon_last_extension_only_witness :
  contains "." "PPTX" = false ∧
  ext (Name ("slides.v2.final" +:+ "." +:+ "PPTX")) = "pptx" ∧
  component (FileIcon (props (Name ("slides.v2.final" +:+ "." +:+ "PPTX"))))
  = FaFilePowerpoint ∧
  component (FileIcon (props (Name ("slides.v2.final" +:+ "."))))
  = FaFileAlt.
Proof.
  split; [reflexivity|].
  exact (FileIcon_last_extension_only "slides.v2.final" "PPTX" None None
           eq_refl).
Defined.

(** X14. The extension the [switch] receives is in lower case and holds no
    [.], for every file name, also an undefined or null one. *)
Theorem ext_lower_case_without_dot (f : FilenameProp) :
  toLowerCase (ext f) = ext f ∧ contains "." (ext f) = false.
Proof.
  destruct f as [| |s]; [done..|]. rewrite ext_Name.
  rewrite toLowerCase_idem, contains_dot_lower. split; [done|].
  destruct (afterLast "." s) as [e|] eqn:Hs; simpl.
  - by eapply afterLast_Some.
  - by apply afterLast_None.
Qed.

End IconProperties.

(** ** The build target *)

Section AstroProperties.
Import Astro.

(** X15. The site and the base path always come from one and the same
    entry: both are set exactly when [BUILD_TARGET] is unset, [local] or
    [production], with the values of [local] in the first two cases and
    those of [production] in the third. *)
Theorem astroConfig_entries (BUILD_TARGET : option string) (s b : string) :
  astroConfig BUILD_TARGET = Some {| site := Some s; base := Some b |} ↔
  ((BUILD_TARGET = None ∨ BUILD_TARGET = Some "local") ∧
   s = "http://localhost:4321" ∧ b = EmptyString) ∨
  (BUILD_TARGET = Some "production" ∧
   s = "https://esa-apex.github.io/" ∧ b = "/apex_document_repo/").
Proof.
  unfold astroConfig.
  destruct BUILD_TARGET as [t|];
    [change (buildTarget (Some t)) with t
    |change (buildTarget None) with "local"];
    unfold getProperty, config; cbn [ownProperty].
  - destruct (String.eqb_spec "local" t) as [<-|Hlocal].
    { split; [intros [= <- <-]; auto|].
      intros [(_ & -> & ->)|([=] & _)]. done. }
    destruct (String.eqb_spec "production" t) as [<-|Hprod].
    { split; [intros [= <- <-]; auto|].
      intros [([[=]|[=]] & _)|(_ & -> & ->)]. done. }
    split.
    + by destruct (existsb _ _).
    + intros [([[=]|[= ->]] & _)|([= ->] & _)]; done.
  - split; [intros [= <- <-]; auto|].
    intros [(_ & -> & ->)|([=] & _)]. done.
Qed.

(** X16. There is no fallback for an unknown target: the module throws on
    load exactly when [BUILD_TARGET] is set to a string that is neither
    [local] nor [production] nor the name of a member every object
    inherits; the empty string is such a string, only an unset variable
    means [local]. *)
Theorem astroConfig_throws_iff (BUILD_TARGET : option string) :
  astroConfig BUILD_TARGET = None ↔
  ∃ t, BUILD_TARGET = Some t ∧ t ≠ "local" ∧ t ≠ "production" ∧
       t ∉ objectPrototype.
Proof.
  unfold astroConfig.
  destruct BUILD_TARGET as [t|];
    [change (buildTarget (Some t)) with t
    |change (buildTarget None) with "local"];
    unfold getProperty, config; cbn [ownProperty].
  - destruct (String.eqb_spec "local" t) as [<-|Hlocal].
    { split; [done|]. by intros (? & [= <-] & ? & _). }
    destruct (String.eqb_spec "production" t) as [<-|Hprod].
    { split; [done|]. by intros (? & [= <-] & _ & ? & _). }
    destruct (existsb (String.eqb t) objectPrototype) eqn:Hproto.
    + split; [done|]. intros (? & [= <-] & _ & _ & Hnot). destruct Hnot.
      apply existsb_exists in Hproto as (k & Hk & ->%String.eqb_eq).
      by apply list_elem_of_In.
    + split; [|done]. intros _. exists t. split_and!; [done..|].
      intros Hin%list_elem_of_In.
      assert (existsb (String.eqb t) objectPrototype = true) as Htrue; [|congruence].
      apply existsb_exists. exists t. by rewrite String.eqb_refl.
  - split; [done|]. by intros (? & [=] & _).
Qed.

End AstroProperties.
